(** * chrome-homepage-mobile: the shortcut / settings state manager of [App.tsx]

    A shallow embedding of the pure functions, the persistence gateway and
    the event handlers of [src/App.tsx], together with the properties of the
    specification that concern them.

    Conventions of the embedding.
    - A JavaScript string is a Rocq [string] holding its UTF-8 encoding.
    - A JavaScript exception is the [Throw] completion of a small completion
      monad; [try_catch] is [try { .. } catch { .. }].
    - A JavaScript number is a [number]: NaN, the two infinities, or a finite
      value carried as a rational (finite doubles are rationals; the rounding
      of literals and the sign of zero are not modelled).
    - The platform functions the program calls but does not define
      ([JSON.parse], [JSON.stringify], [new URL], the origin getter) are the
      fields of the class [Platform]; general theorems hold for every
      platform, concrete evaluations use the instance [browser].
    - React state is updated as soon as a handler calls a setter: every
      handler runs against the state of the latest render. *)

From Stdlib Require Import QArith Qminmax.
From stdpp Require Import base option list strings gmap.
From Stdlib Require Import Ascii String DecimalString.

Set Warnings "-register-all,-abstract-large-number".

Local Open Scope string_scope.
Local Open Scope list_scope.

(** ** JavaScript values *)

Module JS.

(** *** Completions: a value or a thrown exception *)

Inductive Completion (A : Type) : Type :=
| Normal (a : A)
| Throw.
Arguments Normal {A} a.
Arguments Throw {A}.

Definition bind {A B} (c : Completion A) (k : A -> Completion B) : Completion B :=
  match c with
  | Normal a => k a
  | Throw => Throw
  end.

(** [try { body } catch { handler }] where both produce a value. *)
Definition try_catch {A} (body : Completion A) (handler : A) : A :=
  match body with
  | Normal a => a
  | Throw => handler
  end.

Definition throws {A} (c : Completion A) : Prop := c = Throw.

(** *** Numbers *)

Inductive number : Type :=
| NaN
| NegInf
| PosInf
| Fin (q : Q).

Definition Number_isFinite (n : number) : bool :=
  match n with
  | Fin _ => true
  | _ => false
  end.

Definition Math_max (a b : number) : number :=
  match a, b with
  | NaN, _ | _, NaN => NaN
  | PosInf, _ | _, PosInf => PosInf
  | NegInf, x | x, NegInf => x
  | Fin p, Fin q => Fin (if Qle_bool p q then q else p)
  end.

Definition Math_min (a b : number) : number :=
  match a, b with
  | NaN, _ | _, NaN => NaN
  | NegInf, _ | _, NegInf => NegInf
  | PosInf, x | x, PosInf => x
  | Fin p, Fin q => Fin (if Qle_bool p q then p else q)
  end.

Definition of_Z (z : Z) : number := Fin (inject_Z z).

(** [between lo hi n]: [n] is a finite number with [lo <= n <= hi]. *)
Definition between (lo hi : Z) (n : number) : Prop :=
  match n with
  | Fin q => (inject_Z lo <= q)%Q /\ (q <= inject_Z hi)%Q
  | _ => False
  end.

(** *** Values produced by [JSON.parse] and consumed by [JSON.stringify] *)

Inductive value : Type :=
| Null
| Bool (b : bool)
| Num (n : number)
| Str (s : string)
| Arr (items : list value)
| Obj (props : list (string * value)).

(** Own property lookup in the property list of an object. *)
Fixpoint lookup_prop (k : string) (props : list (string * value)) : option value :=
  match props with
  | [] => None
  | (k', v) :: rest => if String.eqb k k' then Some v else lookup_prop k rest
  end.

(** [v.k]: [None] is [undefined].  Reading a property of [null] throws a
    TypeError; a primitive or an array has none of the property names the
    program reads. *)
Definition get (v : value) (k : string) : Completion (option value) :=
  match v with
  | Null => Throw
  | Obj props => Normal (lookup_prop k props)
  | _ => Normal None
  end.

(** [v?.k]: optional chaining short-circuits on [null] to [undefined]. *)
Definition get_opt (v : value) (k : string) : option value :=
  match v with
  | Obj props => lookup_prop k props
  | _ => None
  end.

(** [typeof x === 'string'], [typeof x === 'number'], [typeof x === 'boolean'],
    for the result [x] of a property read. *)
Definition as_string (x : option value) : option string :=
  match x with
  | Some (Str s) => Some s
  | _ => None
  end.

Definition as_number (x : option value) : option number :=
  match x with
  | Some (Num n) => Some n
  | _ => None
  end.

Definition as_boolean (x : option value) : option bool :=
  match x with
  | Some (Bool b) => Some b
  | _ => None
  end.

(** *** Strings *)

(** Truthiness of a string: every string but the empty one. *)
Definition truthy (s : string) : bool :=
  match s with
  | EmptyString => false
  | String _ _ => true
  end.

(** Truthiness of [string | null]. *)
Definition truthy_opt (s : option string) : bool :=
  match s with
  | Some s => truthy s
  | None => false
  end.

Definition chars (s : string) : list ascii := list_ascii_of_string s.
Definition of_chars (l : list ascii) : string := string_of_list_ascii l.
Definition code (c : ascii) : nat := nat_of_ascii c.

(** The UTF-8 encodings of the code points of WhiteSpace and LineTerminator:
    U+0009..U+000D, U+0020, U+00A0, U+1680, U+2000..U+200A, U+2028, U+2029,
    U+202F, U+205F, U+3000, U+FEFF. *)
Definition whiteSpace : list (list nat) :=
  [ [9]; [10]; [11]; [12]; [13]; [32]; [194; 160]; [225; 154; 128];
    [226; 128; 128]; [226; 128; 129]; [226; 128; 130]; [226; 128; 131];
    [226; 128; 132]; [226; 128; 133]; [226; 128; 134]; [226; 128; 135];
    [226; 128; 136]; [226; 128; 137]; [226; 128; 138]; [226; 128; 168];
    [226; 128; 169]; [226; 128; 175]; [226; 129; 159]; [227; 128; 128];
    [239; 187; 191] ].

Fixpoint strip_prefix (p l : list nat) : option (list nat) :=
  match p, l with
  | [], _ => Some l
  | a :: p', b :: l' => if Nat.eqb a b then strip_prefix p' l' else None
  | _ :: _, [] => None
  end.

(** Remove one leading white space code point, if there is one. *)
Fixpoint strip_one (ws : list (list nat)) (l : list nat) : option (list nat) :=
  match ws with
  | [] => None
  | w :: ws' =>
      match strip_prefix w l with
      | Some l' => Some l'
      | None => strip_one ws' l
      end
  end.

Fixpoint trim_start_aux (fuel : nat) (ws : list (list nat)) (l : list nat) : list nat :=
  match fuel with
  | O => l
  | S fuel' =>
      match strip_one ws l with
      | Some l' => trim_start_aux fuel' ws l'
      | None => l
      end
  end.

Definition trim_codes (l : list nat) : list nat :=
  let l1 := trim_start_aux (List.length l) whiteSpace l in
  let r := trim_start_aux (List.length l1) (map (@rev nat) whiteSpace) (rev l1) in
  rev r.

(** [String.prototype.trim]. *)
Definition trim (s : string) : string :=
  of_chars (map ascii_of_nat (trim_codes (map code (chars s)))).

Definition is_upper (c : ascii) : bool := (65 <=? code c)%nat && (code c <=? 90)%nat.
Definition is_lower (c : ascii) : bool := (97 <=? code c)%nat && (code c <=? 122)%nat.
Definition is_alpha (c : ascii) : bool := is_upper c || is_lower c.
Definition is_digit (c : ascii) : bool := (48 <=? code c)%nat && (code c <=? 57)%nat.

Definition to_lower (c : ascii) : ascii :=
  if is_upper c then ascii_of_nat (code c + 32) else c.

Definition lower (s : string) : string := of_chars (map to_lower (chars s)).

(** [s.startsWith(p)] on the characters. *)
Fixpoint starts_with (p l : list ascii) : bool :=
  match p, l with
  | [], _ => true
  | a :: p', b :: l' => Ascii.eqb a b && starts_with p' l'
  | _ :: _, [] => false
  end.

Definition hex_digit (n : nat) : ascii :=
  ascii_of_nat (if (n <? 10)%nat then 48 + n else 55 + n).

(** The three characters [%XX] of a percent-encoded byte (upper-case hex). *)
Definition percent_byte (c : ascii) : list ascii :=
  [ "%"%char; hex_digit (code c / 16); hex_digit (code c mod 16) ].

(** [encodeURIComponent]: every byte of the UTF-8 encoding is escaped but
    the letters, the digits and [- _ . ! ~ * ' ( )]. *)
Definition uri_unreserved (c : ascii) : bool :=
  is_alpha c || is_digit c ||
  existsb (Ascii.eqb c) (chars "-_.!~*'()").

Definition encodeURIComponent (s : string) : string :=
  of_chars (flat_map (fun c => if uri_unreserved c then [c] else percent_byte c) (chars s)).

End JS.

Import JS.

(** The completions form a monad; stdpp's [x ← c; k] is the sequencing of
    statements, a [Throw] skipping what follows it. *)
#[global] Instance Completion_ret : MRet Completion := @Normal.
#[global] Instance Completion_bind : MBind Completion :=
  fun A B k c => JS.bind c k.

(** ** The URL record of the URL standard *)

Module URL.

Inductive Path : Type :=
| Opaque (s : string)
| Segments (l : list string).

Record t : Type := mk {
  scheme : string;
  username : string;
  password : string;
  host : option string;
  port : option nat;
  path : Path;
  query : option string;
  fragment : option string;
}.

Definition decimal (n : nat) : string :=
  DecimalString.NilEmpty.string_of_uint (Nat.to_uint n).

(** The [protocol] getter: the scheme followed by a colon. *)
Definition protocol (u : t) : string := scheme u +:+ ":".

(** The [hostname] getter. *)
Definition hostname (u : t) : string := default "" (host u).

Definition serialize_path (p : Path) : string :=
  match p with
  | Opaque s => s
  | Segments l => fold_right (fun seg acc => "/" +:+ seg +:+ acc) "" l
  end.

(** The URL serializer: the [href] getter and [toString()]. *)
Definition toString (u : t) : string :=
  scheme u +:+ ":" +:+
  match host u with
  | Some h =>
      "//" +:+
      (if truthy (username u) || truthy (password u)
       then username u +:+
            (if truthy (password u) then ":" +:+ password u else "") +:+ "@"
       else "") +:+
      h +:+
      match port u with
      | Some p => ":" +:+ decimal p
      | None => ""
      end
  | None =>
      match path u with
      | Segments ("" :: _ :: _) => "/."
      | _ => ""
      end
  end +:+
  serialize_path (path u) +:+
  match query u with Some q => "?" +:+ q | None => "" end +:+
  match fragment u with Some f => "#" +:+ f | None => "" end.

End URL.

(** ** The platform

    [JSON.parse] throws a SyntaxError on text that is not JSON; [new URL]
    throws a TypeError on a string that does not parse as an absolute URL. *)

Class Platform : Type := {
  JSON_parse : string -> Completion value;
  JSON_stringify : value -> string;
  URL_new : string -> Completion URL.t;
  URL_origin : URL.t -> string;
}.

(** ** The key-value store ([localStorage])

    Access to an unavailable store throws; a write that would exceed the
    quota throws and leaves the store as it was. *)

Record Storage : Type := {
  available : bool;
  quota : option nat;
  items : gmap string string;
}.

Definition used (m : gmap string string) : nat :=
  map_fold (fun k v acc => String.length k + String.length v + acc)%nat 0%nat m.

Definition within_quota (st : Storage) (m : gmap string string) : bool :=
  match quota st with
  | Some q => (used m <=? q)%nat
  | None => true
  end.

Definition getItem (st : Storage) (k : string) : Completion (option string) :=
  if available st then Normal (items st !! k) else Throw.

Definition setItem (st : Storage) (k v : string) : Completion Storage :=
  if available st && within_quota st (<[k := v]> (items st))
  then Normal {| available := available st; quota := quota st;
                 items := <[k := v]> (items st) |}
  else Throw.

(** ** Data model *)

Inductive DisplayMode : Type := auto | icon | text.

#[global] Instance DisplayMode_eq_dec : EqDecision DisplayMode.
Proof. solve_decision. Defined.

Definition DisplayMode_toString (m : DisplayMode) : string :=
  match m with
  | auto => "auto"
  | icon => "icon"
  | text => "text"
  end.

Record Site : Type := {
  id : string;
  url : string;
  name : string;
  color : string;
  iconUrl : option string;
  displayMode : DisplayMode;
}.

Record HomepageSettings : Type := {
  backgroundImage : option string;
  blurEnabled : bool;
  blurStrength : number;
}.

Definition STORAGE_KEY : string := "chromehome.sites.v1".
Definition SETTINGS_KEY : string := "chromehome.settings.v1".
Definition PRESET_COLORS : list string :=
  [ "#4A7DFF"; "#00E9FF"; "#9259FF"; "#FF4A7A"; "#FFB020"; "#2BD576"; "#2E7DFF" ].

(** [PRESET_COLORS[0]!] *)
Definition PRESET_COLORS_0 : string := default "" (head PRESET_COLORS).

(** The run-time object of a [Site], as [JSON.stringify] receives it: the
    properties in the order in which the object literals of
    [loadSitesFromStorage] and [addSite] list them. *)
Definition Site_toJS (s : Site) : value :=
  Obj [ ("id", Str (id s)); ("url", Str (url s)); ("name", Str (name s));
        ("color", Str (color s));
        ("iconUrl", match iconUrl s with Some i => Str i | None => Null end);
        ("displayMode", Str (DisplayMode_toString (displayMode s))) ].

Definition Sites_toJS (l : list Site) : value := Arr (map Site_toJS l).

(** ** Validation and normalization, persistence gateway *)

Section Program.
Context `{Platform}.

Definition defaultSettings : HomepageSettings :=
  {| backgroundImage := None; blurEnabled := true; blurStrength := of_Z 16 |}.

Definition is_http (u : URL.t) : bool :=
  String.eqb (URL.protocol u) "http:" || String.eqb (URL.protocol u) "https:".

(** The block [try { const url = new URL(c); if (url.protocol !== 'http:' &&
    url.protocol !== 'https:') return null; return url.toString() } catch
    { return null }], which [normalizeHttpUrlOrNull] and
    [loadSettingsFromStorage] both contain: the specification's
    [validateHttpUrl]. *)
Definition validateHttpUrl (candidate : string) : option string :=
  try_catch
    (u ← URL_new candidate;
     if negb (is_http u) then Normal None else Normal (Some (URL.toString u)))
    None.

Definition loadSettingsFromStorage (st : Storage) : HomepageSettings :=
  try_catch
    (raw ← getItem st SETTINGS_KEY;
     if negb (truthy_opt raw) then Normal defaultSettings else
     parsed ← JSON_parse (default "" raw);
     bs ← get parsed "blurStrength";
     let blurStrength :=
       match as_number bs with
       | Some n => if Number_isFinite n then n else of_Z 16
       | None => of_Z 16
       end in
     bg ← get parsed "backgroundImage";
     let backgroundImage :=
       match as_string bg with
       | Some s => validateHttpUrl s
       | None => None
       end in
     be ← get parsed "blurEnabled";
     Normal {| backgroundImage := backgroundImage;
               blurEnabled := match as_boolean be with Some b => b | None => true end;
               blurStrength := Math_min (of_Z 40) (Math_max (of_Z 0) blurStrength) |})
    defaultSettings.

Definition faviconTemplate (origin : string) : string :=
  "https://www.google.com/s2/favicons?domain_url=" +:+ encodeURIComponent origin +:+ "&sz=128".

Definition getFaviconUrl (url : string) : option string :=
  try_catch
    (parsed ← URL_new url;
     let origin := URL_origin parsed in
     Normal (Some (faviconTemplate origin)))
    None.

(** The filter callback of [loadSitesFromStorage]. *)
Definition hasStringFields (s : value) : bool :=
  bool_decide (is_Some (as_string (get_opt s "id"))) &&
  bool_decide (is_Some (as_string (get_opt s "url"))) &&
  bool_decide (is_Some (as_string (get_opt s "name"))).

(** TypeScript's non-null assertion [x!] is erased at run time; behind the
    filter its operand is always a string (lemma [normalizeStored_filtered]
    does not depend on the value chosen here for the other case). *)
Definition non_null (x : option string) : string := default "" x.

Definition coerceDisplayMode (x : option value) : DisplayMode :=
  match as_string x with
  | Some s =>
      if String.eqb s "auto" then auto
      else if String.eqb s "icon" then icon
      else if String.eqb s "text" then text
      else auto
  | None => auto
  end.

(** The second map callback of [loadSitesFromStorage]. *)
Definition normalizeStored (s : value) : Completion Site :=
  dm ← get s "displayMode";
  let displayMode := coerceDisplayMode dm in
  ic ← get s "iconUrl";
  u ← get s "url";
  let iconUrl :=
    match as_string ic with
    | Some i => Some i
    | None =>
        try_catch
          (parsed ← URL_new (non_null (as_string u));
           let origin := URL_origin parsed in
           Normal (Some (faviconTemplate origin)))
          None
    end in
  i ← get s "id";
  n ← get s "name";
  c ← get s "color";
  Normal {| id := non_null (as_string i);
            url := non_null (as_string u);
            name := non_null (as_string n);
            color := match as_string c with Some c => c | None => PRESET_COLORS_0 end;
            iconUrl := iconUrl;
            displayMode := displayMode |}.

(** [Array.prototype.map] with a callback that may throw. *)
Fixpoint mapM {A B} (f : A -> Completion B) (l : list A) : Completion (list B) :=
  match l with
  | [] => Normal []
  | a :: l' => b ← f a; bs ← mapM f l'; Normal (b :: bs)
  end.

Definition loadSitesFromStorage (st : Storage) : list Site :=
  try_catch
    (raw ← getItem st STORAGE_KEY;
     if negb (truthy_opt raw) then Normal [] else
     parsed ← JSON_parse (default "" raw);
     match parsed with
     | Arr items => mapM normalizeStored (List.filter hasStringFields items)
     | _ => Normal []
     end)
    [].

(** The effect [useEffect(() => { try { localStorage.setItem(STORAGE_KEY,
    JSON.stringify(sites)) } catch { } }, [sites])]. *)
Definition saveSites (st : Storage) (sites : list Site) : Storage :=
  try_catch (setItem st STORAGE_KEY (JSON_stringify (Sites_toJS sites))) st.

(** [/^https?:\/\//i.test(value)] *)
Definition hasHttpPrefix (value : string) : bool :=
  starts_with (chars "http://") (chars (lower value)) ||
  starts_with (chars "https://") (chars (lower value)).

Definition normalizeUrl (raw : string) : string :=
  let value := trim raw in
  if negb (truthy value) then ""
  else if hasHttpPrefix value then value
  else "https://" +:+ value.

Definition normalizeHttpUrlOrNull (raw : string) : option string :=
  let candidate := normalizeUrl raw in
  if negb (truthy candidate) then None
  else validateHttpUrl candidate.

End Program.

(** ** The component state

    The [useState] cells and the two [useRef] cells of [App], and the part of
    the window the handlers act on: the pending timeouts (handle, due time and
    the shortcut id the callback of [armDeleteWithLongPress] closes over), the
    next handle [setTimeout] returns, and the clock in milliseconds. *)

Record AppState : Type := {
  sites : list Site;
  settings : HomepageSettings;
  isAddOpen : bool;
  isSettingsOpen : bool;
  deleteArmedId : option string;
  draftUrl : string;
  draftName : string;
  draftColor : string;
  draftDisplayMode : DisplayMode;
  draftBgUrl : string;
  iconErrorById : gset string;
  longPressTimerRef : option nat;
  longPressTriggeredRef : bool;
  pendingTimeouts : gmap nat (nat * string);
  nextTimeoutHandle : nat;
  now : nat;
}.

Definition set_sites (v : list Site) (st : AppState) : AppState :=
  {| sites := v; settings := settings st; isAddOpen := isAddOpen st;
  isSettingsOpen := isSettingsOpen st; deleteArmedId := deleteArmedId st;
  draftUrl := draftUrl st; draftName := draftName st; draftColor := draftColor
  st; draftDisplayMode := draftDisplayMode st; draftBgUrl := draftBgUrl st;
  iconErrorById := iconErrorById st; longPressTimerRef := longPressTimerRef
  st; longPressTriggeredRef := longPressTriggeredRef st; pendingTimeouts :=
  pendingTimeouts st; nextTimeoutHandle := nextTimeoutHandle st; now := now st
  |}.

Definition set_settings (v : HomepageSettings) (st : AppState) : AppState :=
  {| sites := sites st; settings := v; isAddOpen := isAddOpen st;
  isSettingsOpen := isSettingsOpen st; deleteArmedId := deleteArmedId st;
  draftUrl := draftUrl st; draftName := draftName st; draftColor := draftColor
  st; draftDisplayMode := draftDisplayMode st; draftBgUrl := draftBgUrl st;
  iconErrorById := iconErrorById st; longPressTimerRef := longPressTimerRef
  st; longPressTriggeredRef := longPressTriggeredRef st; pendingTimeouts :=
  pendingTimeouts st; nextTimeoutHandle := nextTimeoutHandle st; now := now st
  |}.

Definition set_isAddOpen (v : bool) (st : AppState) : AppState :=
  {| sites := sites st; settings := settings st; isAddOpen := v;
  isSettingsOpen := isSettingsOpen st; deleteArmedId := deleteArmedId st;
  draftUrl := draftUrl st; draftName := draftName st; draftColor := draftColor
  st; draftDisplayMode := draftDisplayMode st; draftBgUrl := draftBgUrl st;
  iconErrorById := iconErrorById st; longPressTimerRef := longPressTimerRef
  st; longPressTriggeredRef := longPressTriggeredRef st; pendingTimeouts :=
  pendingTimeouts st; nextTimeoutHandle := nextTimeoutHandle st; now := now st
  |}.

Definition set_isSettingsOpen (v : bool) (st : AppState) : AppState :=
  {| sites := sites st; settings := settings st; isAddOpen := isAddOpen st;
  isSettingsOpen := v; deleteArmedId := deleteArmedId st; draftUrl := draftUrl
  st; draftName := draftName st; draftColor := draftColor st; draftDisplayMode
  := draftDisplayMode st; draftBgUrl := draftBgUrl st; iconErrorById :=
  iconErrorById st; longPressTimerRef := longPressTimerRef st;
  longPressTriggeredRef := longPressTriggeredRef st; pendingTimeouts :=
  pendingTimeouts st; nextTimeoutHandle := nextTimeoutHandle st; now := now st
  |}.

Definition set_deleteArmedId (v : option string) (st : AppState) : AppState :=
  {| sites := sites st; settings := settings st; isAddOpen := isAddOpen st;
  isSettingsOpen := isSettingsOpen st; deleteArmedId := v; draftUrl :=
  draftUrl st; draftName := draftName st; draftColor := draftColor st;
  draftDisplayMode := draftDisplayMode st; draftBgUrl := draftBgUrl st;
  iconErrorById := iconErrorById st; longPressTimerRef := longPressTimerRef
  st; longPressTriggeredRef := longPressTriggeredRef st; pendingTimeouts :=
  pendingTimeouts st; nextTimeoutHandle := nextTimeoutHandle st; now := now st
  |}.

Definition set_draftUrl (v : string) (st : AppState) : AppState :=
  {| sites := sites st; settings := settings st; isAddOpen := isAddOpen st;
  isSettingsOpen := isSettingsOpen st; deleteArmedId := deleteArmedId st;
  draftUrl := v; draftName := draftName st; draftColor := draftColor st;
  draftDisplayMode := draftDisplayMode st; draftBgUrl := draftBgUrl st;
  iconErrorById := iconErrorById st; longPressTimerRef := longPressTimerRef
  st; longPressTriggeredRef := longPressTriggeredRef st; pendingTimeouts :=
  pendingTimeouts st; nextTimeoutHandle := nextTimeoutHandle st; now := now st
  |}.

Definition set_draftName (v : string) (st : AppState) : AppState :=
  {| sites := sites st; settings := settings st; isAddOpen := isAddOpen st;
  isSettingsOpen := isSettingsOpen st; deleteArmedId := deleteArmedId st;
  draftUrl := draftUrl st; draftName := v; draftColor := draftColor st;
  draftDisplayMode := draftDisplayMode st; draftBgUrl := draftBgUrl st;
  iconErrorById := iconErrorById st; longPressTimerRef := longPressTimerRef
  st; longPressTriggeredRef := longPressTriggeredRef st; pendingTimeouts :=
  pendingTimeouts st; nextTimeoutHandle := nextTimeoutHandle st; now := now st
  |}.

Definition set_draftColor (v : string) (st : AppState) : AppState :=
  {| sites := sites st; settings := settings st; isAddOpen := isAddOpen st;
  isSettingsOpen := isSettingsOpen st; deleteArmedId := deleteArmedId st;
  draftUrl := draftUrl st; draftName := draftName st; draftColor := v;
  draftDisplayMode := draftDisplayMode st; draftBgUrl := draftBgUrl st;
  iconErrorById := iconErrorById st; longPressTimerRef := longPressTimerRef
  st; longPressTriggeredRef := longPressTriggeredRef st; pendingTimeouts :=
  pendingTimeouts st; nextTimeoutHandle := nextTimeoutHandle st; now := now st
  |}.

Definition set_draftDisplayMode (v : DisplayMode) (st : AppState) : AppState :=
  {| sites := sites st; settings := settings st; isAddOpen := isAddOpen st;
  isSettingsOpen := isSettingsOpen st; deleteArmedId := deleteArmedId st;
  draftUrl := draftUrl st; draftName := draftName st; draftColor := draftColor
  st; draftDisplayMode := v; draftBgUrl := draftBgUrl st; iconErrorById :=
  iconErrorById st; longPressTimerRef := longPressTimerRef st;
  longPressTriggeredRef := longPressTriggeredRef st; pendingTimeouts :=
  pendingTimeouts st; nextTimeoutHandle := nextTimeoutHandle st; now := now st
  |}.

Definition set_draftBgUrl (v : string) (st : AppState) : AppState :=
  {| sites := sites st; settings := settings st; isAddOpen := isAddOpen st;
  isSettingsOpen := isSettingsOpen st; deleteArmedId := deleteArmedId st;
  draftUrl := draftUrl st; draftName := draftName st; draftColor := draftColor
  st; draftDisplayMode := draftDisplayMode st; draftBgUrl := v; iconErrorById
  := iconErrorById st; longPressTimerRef := longPressTimerRef st;
  longPressTriggeredRef := longPressTriggeredRef st; pendingTimeouts :=
  pendingTimeouts st; nextTimeoutHandle := nextTimeoutHandle st; now := now st
  |}.

Definition set_iconErrorById (v : gset string) (st : AppState) : AppState :=
  {| sites := sites st; settings := settings st; isAddOpen := isAddOpen st;
  isSettingsOpen := isSettingsOpen st; deleteArmedId := deleteArmedId st;
  draftUrl := draftUrl st; draftName := draftName st; draftColor := draftColor
  st; draftDisplayMode := draftDisplayMode st; draftBgUrl := draftBgUrl st;
  iconErrorById := v; longPressTimerRef := longPressTimerRef st;
  longPressTriggeredRef := longPressTriggeredRef st; pendingTimeouts :=
  pendingTimeouts st; nextTimeoutHandle := nextTimeoutHandle st; now := now st
  |}.

Definition set_longPressTimerRef (v : option nat) (st : AppState) : AppState :=
  {| sites := sites st; settings := settings st; isAddOpen := isAddOpen st;
  isSettingsOpen := isSettingsOpen st; deleteArmedId := deleteArmedId st;
  draftUrl := draftUrl st; draftName := draftName st; draftColor := draftColor
  st; draftDisplayMode := draftDisplayMode st; draftBgUrl := draftBgUrl st;
  iconErrorById := iconErrorById st; longPressTimerRef := v;
  longPressTriggeredRef := longPressTriggeredRef st; pendingTimeouts :=
  pendingTimeouts st; nextTimeoutHandle := nextTimeoutHandle st; now := now st
  |}.

Definition set_longPressTriggeredRef (v : bool) (st : AppState) : AppState :=
  {| sites := sites st; settings := settings st; isAddOpen := isAddOpen st;
  isSettingsOpen := isSettingsOpen st; deleteArmedId := deleteArmedId st;
  draftUrl := draftUrl st; draftName := draftName st; draftColor := draftColor
  st; draftDisplayMode := draftDisplayMode st; draftBgUrl := draftBgUrl st;
  iconErrorById := iconErrorById st; longPressTimerRef := longPressTimerRef
  st; longPressTriggeredRef := v; pendingTimeouts := pendingTimeouts st;
  nextTimeoutHandle := nextTimeoutHandle st; now := now st |}.

Definition set_pendingTimeouts (v : gmap nat (nat * string)) (st : AppState) : AppState :=
  {| sites := sites st; settings := settings st; isAddOpen := isAddOpen st;
  isSettingsOpen := isSettingsOpen st; deleteArmedId := deleteArmedId st;
  draftUrl := draftUrl st; draftName := draftName st; draftColor := draftColor
  st; draftDisplayMode := draftDisplayMode st; draftBgUrl := draftBgUrl st;
  iconErrorById := iconErrorById st; longPressTimerRef := longPressTimerRef
  st; longPressTriggeredRef := longPressTriggeredRef st; pendingTimeouts := v;
  nextTimeoutHandle := nextTimeoutHandle st; now := now st |}.

Definition set_nextTimeoutHandle (v : nat) (st : AppState) : AppState :=
  {| sites := sites st; settings := settings st; isAddOpen := isAddOpen st;
  isSettingsOpen := isSettingsOpen st; deleteArmedId := deleteArmedId st;
  draftUrl := draftUrl st; draftName := draftName st; draftColor := draftColor
  st; draftDisplayMode := draftDisplayMode st; draftBgUrl := draftBgUrl st;
  iconErrorById := iconErrorById st; longPressTimerRef := longPressTimerRef
  st; longPressTriggeredRef := longPressTriggeredRef st; pendingTimeouts :=
  pendingTimeouts st; nextTimeoutHandle := v; now := now st |}.

Definition set_now (v : nat) (st : AppState) : AppState :=
  {| sites := sites st; settings := settings st; isAddOpen := isAddOpen st;
  isSettingsOpen := isSettingsOpen st; deleteArmedId := deleteArmedId st;
  draftUrl := draftUrl st; draftName := draftName st; draftColor := draftColor
  st; draftDisplayMode := draftDisplayMode st; draftBgUrl := draftBgUrl st;
  iconErrorById := iconErrorById st; longPressTimerRef := longPressTimerRef
  st; longPressTriggeredRef := longPressTriggeredRef st; pendingTimeouts :=
  pendingTimeouts st; nextTimeoutHandle := nextTimeoutHandle st; now := v |}.

Definition set_backgroundImage (v : option string) (p : HomepageSettings) : HomepageSettings :=
  {| backgroundImage := v; blurEnabled := blurEnabled p; blurStrength := blurStrength p |}.

Definition set_blurEnabled (v : bool) (p : HomepageSettings) : HomepageSettings :=
  {| backgroundImage := backgroundImage p; blurEnabled := v; blurStrength := blurStrength p |}.

Definition set_blurStrength (v : number) (p : HomepageSettings) : HomepageSettings :=
  {| backgroundImage := backgroundImage p; blurEnabled := blurEnabled p; blurStrength := v |}.

(** The property names every object inherits from [Object.prototype]:
    [prev[id]] and [iconErrorById[site.id]] read through the prototype chain,
    and each of these inherited values is truthy. *)
Definition objectPrototypeKeys : list string :=
  [ "constructor"; "__proto__"; "hasOwnProperty"; "isPrototypeOf";
    "propertyIsEnumerable"; "toLocaleString"; "toString"; "valueOf";
    "__defineGetter__"; "__defineSetter__"; "__lookupGetter__"; "__lookupSetter__" ].

(** [!!errs[id]] for [errs : Record<string, true>]. *)
Definition flagged (errs : gset string) (id : string) : bool :=
  bool_decide (id ∈ errs) || bool_decide (id ∈ objectPrototypeKeys).

(** ** The handlers of [App] *)

Section App.
Context `{Platform}.

Definition initialState (st : Storage) : AppState :=
  {| sites := loadSitesFromStorage st;
     settings := loadSettingsFromStorage st;
     isAddOpen := false;
     isSettingsOpen := false;
     deleteArmedId := None;
     draftUrl := "";
     draftName := "";
     draftColor := PRESET_COLORS_0;
     draftDisplayMode := auto;
     draftBgUrl := "";
     iconErrorById := ∅;
     longPressTimerRef := None;
     longPressTriggeredRef := false;
     pendingTimeouts := ∅;
     nextTimeoutHandle := 1;
     now := 0 |}.

Definition closeAdd (st : AppState) : AppState :=
  set_draftDisplayMode auto
    (set_draftColor PRESET_COLORS_0
      (set_draftName "" (set_draftUrl "" (set_isAddOpen false st)))).

Definition closeSettings (st : AppState) : AppState :=
  set_isSettingsOpen false st.

(** [addSite]; [newId] is the value [createId()] returns. *)
Definition addSite (newId : string) (st : AppState) : AppState :=
  let url := normalizeUrl (draftUrl st) in
  let name := trim (draftName st) in
  if negb (truthy url) || negb (truthy name) then st else
  match validateHttpUrl url with
  | None => st
  | Some validUrl =>
      closeAdd
        (set_sites
           (sites st ++
            [ {| id := newId;
                 url := validUrl;
                 name := name;
                 color := draftColor st;
                 iconUrl := getFaviconUrl validUrl;
                 displayMode := draftDisplayMode st |} ])
           st)
  end.

Definition removeSite (i : string) (st : AppState) : AppState :=
  set_deleteArmedId None
    (set_sites (List.filter (fun s => negb (String.eqb (id s) i)) (sites st)) st).

(** [window.clearTimeout(h)] *)
Definition clearTimeout (h : nat) (st : AppState) : AppState :=
  set_pendingTimeouts (delete h (pendingTimeouts st)) st.

(** [window.setTimeout(callback, delay)], the callback being the one of
    [armDeleteWithLongPress] for shortcut [i]; returns the new handle. *)
Definition setTimeout (i : string) (delay : nat) (st : AppState) : nat * AppState :=
  let h := nextTimeoutHandle st in
  (h, set_nextTimeoutHandle (S h)
        (set_pendingTimeouts (<[h := ((now st + delay)%nat, i)]> (pendingTimeouts st)) st)).

Definition clearLongPressTimer (st : AppState) : AppState :=
  match longPressTimerRef st with
  | Some h => set_longPressTimerRef None (clearTimeout h st)
  | None => st
  end.

Definition armDeleteWithLongPress (i : string) (st : AppState) : AppState :=
  let st1 := set_longPressTriggeredRef false st in
  let st2 := clearLongPressTimer st1 in
  let '(h, st3) := setTimeout i 480 st2 in
  set_longPressTimerRef (Some h) st3.

(** The callback given to [setTimeout] by [armDeleteWithLongPress]. *)
Definition longPressCallback (i : string) (st : AppState) : AppState :=
  set_deleteArmedId (Some i) (set_longPressTriggeredRef true st).

Definition cancelLongPress (st : AppState) : AppState :=
  clearLongPressTimer st.

Definition markIconError (i : string) (st : AppState) : AppState :=
  if flagged (iconErrorById st) i then st
  else set_iconErrorById ({[ i ]} ∪ iconErrorById st) st.

Definition applyBackgroundUrl (st : AppState) : AppState :=
  let normalized :=
    if truthy (trim (draftBgUrl st)) then normalizeHttpUrlOrNull (draftBgUrl st) else None in
  if truthy (trim (draftBgUrl st)) && negb (truthy_opt normalized) then st
  else set_settings (set_backgroundImage normalized (settings st)) st.

(** *** The render-time decisions of a tile *)

Definition isArmed (st : AppState) (site : Site) : bool :=
  bool_decide (deleteArmedId st = Some (id site)).

Definition showIcon (st : AppState) (site : Site) : bool :=
  let preferText := bool_decide (displayMode site = text) in
  let canTryIcon := negb preferText && truthy_opt (iconUrl site) in
  let iconFailed := flagged (iconErrorById st) (id site) in
  canTryIcon && negb iconFailed.

(** *** Events

    What a handler asks of the browser: whether the default action of a click
    on a tile, the navigation to its [href], goes ahead. *)

Inductive Outcome : Type :=
| Navigate (href : string)
| NoAction.

(** The click handler of a tile. *)
Definition tileClick (site : Site) (st : AppState) : AppState * Outcome :=
  if longPressTriggeredRef st then
    (set_longPressTriggeredRef false st, NoAction)
  else if truthy_opt (deleteArmedId st) then (st, NoAction)
  else (st, Navigate (url site)).

(** The [onPointerDown] handler of the root [div.app] and of [div.gridWrap]:
    [if (e.target === e.currentTarget) setDeleteArmedId(null)]. *)
Definition backgroundPointerDown (targetIsCurrentTarget : bool) (st : AppState) : AppState :=
  if targetIsCurrentTarget then set_deleteArmedId None st else st.

(** The elements of the rendered tree on which a pointer can go down. *)
Inductive Element : Type :=
| AppRoot
| BgLayer
| GridWrap
| Grid
| Tile (site : Site)
| DeleteBtn (site : Site)
| Fab
| SettingsFab
| AddOverlay
| AddModal
| SettingsOverlay
| SettingsModal.

(** A pointer-down event bubbles from its target to the root, running the
    [onPointerDown] handler of each element on the way. *)
Definition pointerDown (target : Element) (st : AppState) : AppState :=
  match target with
  | AppRoot => backgroundPointerDown true st
  | GridWrap => backgroundPointerDown false (backgroundPointerDown true st)
  | Grid => backgroundPointerDown false (backgroundPointerDown false st)
  | Tile site | DeleteBtn site =>
      backgroundPointerDown false
        (backgroundPointerDown false (armDeleteWithLongPress (id site) st))
  | AddOverlay => backgroundPointerDown false (closeAdd st)
  | SettingsOverlay => backgroundPointerDown false (closeSettings st)
  | BgLayer | Fab | SettingsFab | AddModal | SettingsModal =>
      backgroundPointerDown false st
  end.

Inductive Event : Type :=
| PointerDown (target : Element)
| TilePointerUp (site : Site)
| TilePointerCancel (site : Site)
| TileClick (site : Site)
| DeleteClick (site : Site)
| Elapse (ms : nat)
| TimeoutFires (h : nat)
| IconError (site : Site)
| FabClick
| SettingsFabClick
| CloseAddClick
| CloseSettingsClick
| DraftUrlChange (v : string)
| DraftNameChange (v : string)
| DraftColorChange (v : string)
| DraftDisplayModeClick (m : DisplayMode)
| DraftBgUrlChange (v : string)
| AddClick (newId : string)
| ApplyBackgroundClick
| ClearBackgroundClick
| BlurEnabledChange (checked : bool)
| BlurStrengthChange (value : number).

(** One event: the new state and what the browser does next.  A timeout
    fires only if it is still pending and due; its handle is then spent. *)
Definition step (ev : Event) (st : AppState) : AppState * Outcome :=
  match ev with
  | PointerDown target => (pointerDown target st, NoAction)
  | TilePointerUp _ => (cancelLongPress st, NoAction)
  | TilePointerCancel _ => (cancelLongPress st, NoAction)
  | TileClick site => tileClick site st
  | DeleteClick site => (removeSite (id site) st, NoAction)
  | Elapse ms => (set_now (now st + ms)%nat st, NoAction)
  | TimeoutFires h =>
      match pendingTimeouts st !! h with
      | Some (due, i) =>
          if (due <=? now st)%nat
          then (longPressCallback i (clearTimeout h st), NoAction)
          else (st, NoAction)
      | None => (st, NoAction)
      end
  | IconError site => (markIconError (id site) st, NoAction)
  | FabClick =>
      (set_isAddOpen true (set_isSettingsOpen false (set_deleteArmedId None st)), NoAction)
  | SettingsFabClick =>
      (set_isSettingsOpen true
         (set_draftBgUrl (default "" (backgroundImage (settings st)))
            (set_isAddOpen false (set_deleteArmedId None st))), NoAction)
  | CloseAddClick => (closeAdd st, NoAction)
  | CloseSettingsClick => (closeSettings st, NoAction)
  | DraftUrlChange v => (set_draftUrl v st, NoAction)
  | DraftNameChange v => (set_draftName v st, NoAction)
  | DraftColorChange v => (set_draftColor v st, NoAction)
  | DraftDisplayModeClick m => (set_draftDisplayMode m st, NoAction)
  | DraftBgUrlChange v => (set_draftBgUrl v st, NoAction)
  | AddClick newId => (addSite newId st, NoAction)
  | ApplyBackgroundClick => (applyBackgroundUrl st, NoAction)
  | ClearBackgroundClick =>
      (set_settings (set_backgroundImage None (settings st)) (set_draftBgUrl "" st), NoAction)
  | BlurEnabledChange checked =>
      (set_settings (set_blurEnabled checked (settings st)) st, NoAction)
  | BlurStrengthChange value =>
      (set_settings (set_blurStrength value (settings st)) st, NoAction)
  end.

(** A sequence of events, the outcomes in order. *)
Fixpoint run (evs : list Event) (st : AppState) : AppState * list Outcome :=
  match evs with
  | [] => (st, [])
  | ev :: evs' =>
      let '(st1, o) := step ev st in
      let '(st2, os) := run evs' st1 in
      (st2, o :: os)
  end.

End App.

(** ** Labels, initials, the CSS value of the background, the guards of the
    two forms and the second persistence effect *)

(** A byte that continues a UTF-8 sequence. *)
Definition is_continuation (c : ascii) : bool :=
  (128 <=? code c)%nat && (code c <? 192)%nat.

(** The code points of a string: each byte that starts a sequence with the
    continuation bytes that follow it. *)
Fixpoint codePoints (l : list ascii) : list (list ascii) :=
  match l with
  | [] => []
  | c :: r =>
      let gs := codePoints r in
      match r with
      | c' :: _ =>
          if is_continuation c' then
            match gs with
            | g :: gs' => (c :: g) :: gs'
            | [] => [[c]]
            end
          else [c] :: gs
      | [] => [[c]]
      end
  end.

(** [Array.from(s)]: the list of the code points of [s], each a string. *)
Definition Array_from (s : string) : list string := map of_chars (codePoints (chars s)).

(** [parts.join('')] *)
Definition join_all (parts : list string) : string :=
  fold_right String.append "" parts.

(** [truncateLabel]; [maxChars] is a count (the one call passes 4). *)
Definition truncateLabel (text : string) (maxChars : nat) : string :=
  let cs := Array_from (trim text) in
  if (List.length cs <=? maxChars)%nat then join_all cs
  else join_all (take maxChars cs) +:+ "...".

Definition to_upper (c : ascii) : ascii :=
  if is_lower c then ascii_of_nat (code c - 32) else c.

(** [String.prototype.toUpperCase] on ASCII letters; other bytes are left
    as they are (the host of a URL, the one operand in the program, is ASCII
    by the host serializer of the URL standard). *)
Definition toUpperCase (s : string) : string := of_chars (map to_upper (chars s)).

(** [host.replace(/^www\./i, '')] *)
Definition stripWww (host : string) : string :=
  if starts_with (chars "www.") (map to_lower (chars host))
  then of_chars (skipn 4 (chars host))
  else host.

(** The [replace] of [cssUrlValue], whose pattern is the class of the double
    quote and the backslash and whose replacement is a backslash followed by
    the match: a backslash before every double quote and every backslash. *)
Definition cssEscape (s : string) : string :=
  of_chars
    (flat_map
       (fun c => if Ascii.eqb c (ascii_of_nat 34) || Ascii.eqb c (ascii_of_nat 92)
                 then [ascii_of_nat 92; c] else [c])
       (chars s)).

(** The run-time object of the settings, as [JSON.stringify] receives it. *)
Definition Settings_toJS (p : HomepageSettings) : value :=
  Obj [ ("backgroundImage", match backgroundImage p with Some b => Str b | None => Null end);
        ("blurEnabled", Bool (blurEnabled p));
        ("blurStrength", Num (blurStrength p)) ].

Section Rest.
Context `{Platform}.

Definition getInitial (name url : string) : string :=
  let nameTrimmed := trim name in
  if truthy nameTrimmed then default "?" (head (Array_from nameTrimmed))
  else
    try_catch
      (u ← URL_new url;
       let host := stripWww (URL.hostname u) in
       Normal (match head (Array_from host) with
               | Some c => toUpperCase c
               | None => "?"
               end))
      "?".

Definition cssUrlValue (url : string) : option string :=
  let safe := normalizeHttpUrlOrNull url in
  if negb (truthy_opt safe) then None
  else
    let escaped := cssEscape (default "" safe) in
    Some ("url(" +:+ String (ascii_of_nat 34) escaped +:+ String (ascii_of_nat 34) ")").

(** The [useMemo] that enables the submit button of the add form. *)
Definition canSave (st : AppState) : bool :=
  let url := normalizeUrl (draftUrl st) in
  let name := trim (draftName st) in
  if negb (truthy url) || negb (truthy name) then false
  else try_catch (parsed ← URL_new url; Normal (is_http parsed)) false.

(** The [useMemo] that enables the apply button of the settings panel. *)
Definition canApplyBg (st : AppState) : bool :=
  if negb (truthy (trim (draftBgUrl st))) then true
  else bool_decide (normalizeHttpUrlOrNull (draftBgUrl st) <> None).

(** The effect [useEffect(() => { try { localStorage.setItem(SETTINGS_KEY,
    JSON.stringify(settings)) } catch { } }, [settings])]. *)
Definition saveSettings (st : Storage) (p : HomepageSettings) : Storage :=
  try_catch (setItem st SETTINGS_KEY (JSON_stringify (Settings_toJS p))) st.

(** What a tile shows: its label, the delete button, and the remote icon
    or else the initial. *)
Record TileView : Type := {
  label : string;
  deleteButton : bool;
  iconImg : option string;
  iconText : option string;
}.

Definition renderTile (st : AppState) (site : Site) : TileView :=
  {| label := truncateLabel (name site) 4;
     deleteButton := isArmed st site;
     iconImg := if showIcon st site then iconUrl site else None;
     iconText := if showIcon st site then None else Some (getInitial (name site) (url site)) |}.

End Rest.

(** ** A concrete platform: JSON

    [Json.parse] follows the JSON grammar of ECMA-404 as [JSON.parse] reads it
    (a later duplicate of a member name overwrites the earlier value);
    [Json.stringify] follows [JSON.stringify] without indentation.  Numbers
    are read exactly and written in plain decimal notation. *)

Module Json.

Definition dquote : ascii := ascii_of_nat 34.
Definition backslash : ascii := ascii_of_nat 92.

Definition is_ws (c : ascii) : bool :=
  existsb (Nat.eqb (code c)) [32; 9; 10; 13]%nat.

Fixpoint skip_ws (l : list ascii) : list ascii :=
  match l with
  | c :: r => if is_ws c then skip_ws r else l
  | [] => []
  end.

Definition hex_val (c : ascii) : option nat :=
  let n := code c in
  if is_digit c then Some (n - 48)%nat
  else if (97 <=? n)%nat && (n <=? 102)%nat then Some (n - 87)%nat
  else if (65 <=? n)%nat && (n <=? 70)%nat then Some (n - 55)%nat
  else None.

Definition hex4 (a b c d : ascii) : option nat :=
  match hex_val a, hex_val b, hex_val c, hex_val d with
  | Some x, Some y, Some z, Some w => Some (((x * 16 + y) * 16 + z) * 16 + w)%nat
  | _, _, _, _ => None
  end.

(** The UTF-8 encoding of a code point (a lone surrogate is encoded like any
    other three-byte code point). *)
Definition utf8 (n : nat) : list ascii :=
  map ascii_of_nat
    (if (n <? 128)%nat then [n]
     else if (n <? 2048)%nat then [192 + n / 64; 128 + n mod 64]
     else if (n <? 65536)%nat then [224 + n / 4096; 128 + (n / 64) mod 64; 128 + n mod 64]
     else [240 + n / 262144; 128 + (n / 4096) mod 64; 128 + (n / 64) mod 64; 128 + n mod 64])%nat.

Definition simple_escape (e : ascii) : option ascii :=
  let n := code e in
  if Ascii.eqb e dquote then Some dquote
  else if Ascii.eqb e backslash then Some backslash
  else if Ascii.eqb e "/" then Some "/"%char
  else if Ascii.eqb e "b" then Some (ascii_of_nat 8)
  else if Ascii.eqb e "f" then Some (ascii_of_nat 12)
  else if Ascii.eqb e "n" then Some (ascii_of_nat 10)
  else if Ascii.eqb e "r" then Some (ascii_of_nat 13)
  else if Ascii.eqb e "t" then Some (ascii_of_nat 9)
  else None.

Definition is_high (n : nat) : bool := (55296 <=? n)%nat && (n <=? 56319)%nat.
Definition is_low (n : nat) : bool := (56320 <=? n)%nat && (n <=? 57343)%nat.

(** The low surrogate escape that may follow a high surrogate escape. *)
Definition low_escape (l : list ascii) : option (nat * list ascii) :=
  match l with
  | b :: u :: h1 :: h2 :: h3 :: h4 :: r =>
      if Ascii.eqb b backslash && Ascii.eqb u "u" then
        match hex4 h1 h2 h3 h4 with
        | Some n => if is_low n then Some (n, r) else None
        | None => None
        end
      else None
  | _ => None
  end.

(** The characters of a string literal after its opening quote, up to and
    including the closing quote. *)
Fixpoint parse_chars (fuel : nat) (l : list ascii) (acc : list ascii) : option (string * list ascii) :=
  match fuel with
  | O => None
  | S fuel' =>
      match l with
      | [] => None
      | c :: r =>
          if Ascii.eqb c dquote then Some (of_chars (rev acc), r)
          else if Ascii.eqb c backslash then
            match r with
            | "u"%char :: h1 :: h2 :: h3 :: h4 :: r2 =>
                match hex4 h1 h2 h3 h4 with
                | Some n =>
                    match (if is_high n then low_escape r2 else None) with
                    | Some (lo, r3) =>
                        let cp := (65536 + (n - 55296) * 1024 + (lo - 56320))%nat in
                        parse_chars fuel' r3 (rev (utf8 cp) ++ acc)
                    | None => parse_chars fuel' r2 (rev (utf8 n) ++ acc)
                    end
                | None => None
                end
            | e :: r1 =>
                match simple_escape e with
                | Some ch => parse_chars fuel' r1 (ch :: acc)
                | None => None
                end
            | [] => None
            end
          else if (code c <? 32)%nat then None
          else parse_chars fuel' r (c :: acc)
      end
  end.

Definition parse_string (l : list ascii) : option (string * list ascii) :=
  parse_chars (S (List.length l)) l [].

Fixpoint take_digits (l : list ascii) : list ascii * list ascii :=
  match l with
  | c :: r =>
      if is_digit c then let '(ds, r') := take_digits r in (c :: ds, r') else ([], l)
  | [] => ([], [])
  end.

Definition digits_val (ds : list ascii) : Z :=
  fold_left (fun acc c => (acc * 10 + Z.of_nat (code c - 48))%Z) ds 0%Z.

(** The largest finite double is below [2^1024 - 2^970]; from there on a
    literal denotes an infinity. *)
Definition overflow : Q := inject_Z (2 ^ 1024 - 2 ^ 970).

Definition make_number (neg : bool) (int frac : list ascii) (exp : Z) : number :=
  let mant := digits_val (int ++ frac) in
  let e := (exp - Z.of_nat (List.length frac))%Z in
  let q := if (0 <=? e)%Z then inject_Z (mant * 10 ^ e)
           else Qred (Qmake mant (Z.to_pos (10 ^ (- e)))) in
  if Qle_bool overflow q then (if neg then NegInf else PosInf)
  else Fin (if neg then Qred (Qopp q) else q).

Definition parse_number (l : list ascii) : option (number * list ascii) :=
  let '(neg, l1) :=
    match l with
    | "-"%char :: r => (true, r)
    | _ => (false, l)
    end in
  let '(int, l2) := take_digits l1 in
  match int with
  | [] => None
  | d :: ds =>
      if Ascii.eqb d "0" && negb (Nat.eqb (List.length ds) 0) then None else
      let frac_part :=
        match l2 with
        | "."%char :: r =>
            let '(fr, r') := take_digits r in
            match fr with [] => None | _ => Some (fr, r') end
        | _ => Some ([], l2)
        end in
      match frac_part with
      | None => None
      | Some (frac, l3) =>
          let exp_part :=
            match l3 with
            | e :: r =>
                if Ascii.eqb e "e" || Ascii.eqb e "E" then
                  let '(eneg, r1) :=
                    match r with
                    | "-"%char :: r' => (true, r')
                    | "+"%char :: r' => (false, r')
                    | _ => (false, r)
                    end in
                  let '(ed, r2) := take_digits r1 in
                  match ed with
                  | [] => None
                  | _ => Some (if eneg then (- digits_val ed)%Z else digits_val ed, r2)
                  end
                else Some (0%Z, l3)
            | [] => Some (0%Z, l3)
            end in
          match exp_part with
          | None => None
          | Some (exp, l4) => Some (make_number neg int frac exp, l4)
          end
      end
  end.

(** Defining a member: a name already present keeps its place and takes the
    new value. *)
Fixpoint set_prop (k : string) (v : value) (props : list (string * value)) : list (string * value) :=
  match props with
  | [] => [(k, v)]
  | (k', v') :: rest =>
      if String.eqb k k' then (k, v) :: rest else (k', v') :: set_prop k v rest
  end.

Fixpoint parse_value (fuel : nat) (l : list ascii) : option (value * list ascii) :=
  match fuel with
  | O => None
  | S fuel' =>
      match skip_ws l with
      | [] => None
      | c :: r =>
          if Ascii.eqb c "{" then
            match skip_ws r with
            | "}"%char :: r' => Some (Obj [], r')
            | r' => parse_members fuel' r' []
            end
          else if Ascii.eqb c "[" then
            match skip_ws r with
            | "]"%char :: r' => Some (Arr [], r')
            | r' => parse_elements fuel' r' []
            end
          else if Ascii.eqb c dquote then
            match parse_string r with
            | Some (s, r') => Some (Str s, r')
            | None => None
            end
          else if starts_with (chars "true") (c :: r) then Some (Bool true, skipn 4 (c :: r))
          else if starts_with (chars "false") (c :: r) then Some (Bool false, skipn 5 (c :: r))
          else if starts_with (chars "null") (c :: r) then Some (Null, skipn 4 (c :: r))
          else
            match parse_number (c :: r) with
            | Some (n, r') => Some (Num n, r')
            | None => None
            end
      end
  end
with parse_elements (fuel : nat) (l : list ascii) (acc : list value) : option (value * list ascii) :=
  match fuel with
  | O => None
  | S fuel' =>
      match parse_value fuel' l with
      | Some (v, r) =>
          match skip_ws r with
          | ","%char :: r' => parse_elements fuel' r' (v :: acc)
          | "]"%char :: r' => Some (Arr (rev (v :: acc)), r')
          | _ => None
          end
      | None => None
      end
  end
with parse_members (fuel : nat) (l : list ascii) (acc : list (string * value)) : option (value * list ascii) :=
  match fuel with
  | O => None
  | S fuel' =>
      match skip_ws l with
      | q :: r =>
          if Ascii.eqb q dquote then
            match parse_string r with
            | Some (k, r1) =>
                match skip_ws r1 with
                | ":"%char :: r2 =>
                    match parse_value fuel' r2 with
                    | Some (v, r3) =>
                        match skip_ws r3 with
                        | ","%char :: r4 => parse_members fuel' r4 (set_prop k v acc)
                        | "}"%char :: r4 => Some (Obj (set_prop k v acc), r4)
                        | _ => None
                        end
                    | None => None
                    end
                | _ => None
                end
            | None => None
            end
          else None
      | [] => None
      end
  end.

Definition parse (text : string) : Completion value :=
  let l := chars text in
  match parse_value (2 * List.length l + 2) l with
  | Some (v, r) =>
      match skip_ws r with
      | [] => Normal v
      | _ => Throw
      end
  | None => Throw
  end.

(** [QuoteJSONString] *)
Definition quote_char (c : ascii) : list ascii :=
  let n := code c in
  if Ascii.eqb c dquote then [backslash; dquote]
  else if Ascii.eqb c backslash then [backslash; backslash]
  else if Nat.eqb n 8 then [backslash; "b"%char]
  else if Nat.eqb n 9 then [backslash; "t"%char]
  else if Nat.eqb n 10 then [backslash; "n"%char]
  else if Nat.eqb n 12 then [backslash; "f"%char]
  else if Nat.eqb n 13 then [backslash; "r"%char]
  else if (n <? 32)%nat then
    [backslash; "u"%char; "0"%char; "0"%char;
     to_lower (hex_digit (n / 16)); to_lower (hex_digit (n mod 16))]
  else [c].

Definition quote (s : string) : list ascii :=
  dquote :: flat_map quote_char (chars s) ++ [dquote].

Definition decimal_Z (z : Z) : list ascii :=
  chars (DecimalString.NilZero.string_of_int (Z.to_int z)).

(** The digits after the decimal point of [r / d], for [0 <= r < d]. *)
Fixpoint fraction_digits (fuel : nat) (r d : Z) : list ascii :=
  match fuel with
  | O => []
  | S fuel' =>
      if (r =? 0)%Z then []
      else ascii_of_nat (48 + Z.to_nat (r * 10 / d)) :: fraction_digits fuel' ((r * 10) mod d) d
  end.

Definition number_toString (n : number) : list ascii :=
  match n with
  | Fin q =>
      let num := Qnum q in
      let den := Zpos (Qden q) in
      let a := Z.abs num in
      (if (num <? 0)%Z then ["-"%char] else []) ++
      decimal_Z (a / den) ++
      (if (a mod den =? 0)%Z then []
       else "."%char :: fraction_digits 1100 (a mod den) den)
  | _ => chars "null"
  end.

Fixpoint join (sep : ascii) (parts : list (list ascii)) : list ascii :=
  match parts with
  | [] => []
  | [p] => p
  | p :: rest => p ++ sep :: join sep rest
  end.

Fixpoint stringify_value (v : value) : list ascii :=
  match v with
  | Null => chars "null"
  | Bool true => chars "true"
  | Bool false => chars "false"
  | Num n => number_toString n
  | Str s => quote s
  | Arr items => "["%char :: join "," (map stringify_value items) ++ ["]"%char]
  | Obj props =>
      "{"%char ::
      join "," (map (fun kv => quote (fst kv) ++ ":"%char :: stringify_value (snd kv)) props)
      ++ ["}"%char]
  end.

Definition stringify (v : value) : string := of_chars (stringify_value v).

End Json.

(** ** A concrete platform: the URL parser

    [Whatwg.parse] follows the basic URL parser of the URL standard for an
    input without base URL and without state override.  Outside the model,
    and reported as failures: the [file] scheme, IPv6 literals, and hosts of
    special schemes that contain a percent sign, a byte above 127 or an
    [xn--] label (which need percent-decoding and IDNA). *)

Module Whatwg.

Definition is_any (cs : string) (c : ascii) : bool := existsb (Ascii.eqb c) (chars cs).

(** [break p l]: the longest prefix of [l] without a character satisfying
    [p], and what follows it. *)
Fixpoint break (p : ascii -> bool) (l : list ascii) : list ascii * list ascii :=
  match l with
  | [] => ([], [])
  | c :: r => if p c then ([], l) else let '(a, b) := break p r in (c :: a, b)
  end.

(** [split p l]: the pieces of [l] between the characters satisfying [p]. *)
Fixpoint split (p : ascii -> bool) (l : list ascii) : list (list ascii) :=
  match l with
  | [] => [[]]
  | c :: r =>
      if p c then [] :: split p r
      else match split p r with
           | piece :: pieces => (c :: piece) :: pieces
           | [] => [[c]]
           end
  end.

Fixpoint drop_while (p : ascii -> bool) (l : list ascii) : list ascii :=
  match l with
  | c :: r => if p c then drop_while p r else l
  | [] => []
  end.

Definition is_c0_or_space (c : ascii) : bool := (code c <=? 32)%nat.
Definition is_tab_or_newline (c : ascii) : bool := existsb (Nat.eqb (code c)) [9; 10; 13]%nat.

Definition preprocess (l : list ascii) : list ascii :=
  let l1 := drop_while is_c0_or_space l in
  let l2 := rev (drop_while is_c0_or_space (rev l1)) in
  List.filter (fun c => negb (is_tab_or_newline c)) l2.

(** The default port of a special scheme ([file] has none). *)
Definition special_port (scheme : string) : option (option nat) :=
  if String.eqb scheme "ftp" then Some (Some 21%nat)
  else if String.eqb scheme "file" then Some None
  else if String.eqb scheme "http" then Some (Some 80%nat)
  else if String.eqb scheme "https" then Some (Some 443%nat)
  else if String.eqb scheme "ws" then Some (Some 80%nat)
  else if String.eqb scheme "wss" then Some (Some 443%nat)
  else None.

Definition is_special (scheme : string) : bool :=
  match special_port scheme with Some _ => true | None => false end.

(** *** Percent-encode sets *)

Definition c0_set (c : ascii) : bool := (code c <? 32)%nat || (126 <? code c)%nat.
Definition fragment_set (c : ascii) : bool :=
  c0_set c || is_any " <>`" c || Ascii.eqb c Json.dquote.
Definition query_set (c : ascii) : bool :=
  c0_set c || is_any " #<>" c || Ascii.eqb c Json.dquote.
Definition special_query_set (c : ascii) : bool := query_set c || Ascii.eqb c "'".
Definition path_set (c : ascii) : bool := query_set c || is_any "?^`{}" c.
Definition userinfo_set (c : ascii) : bool :=
  path_set c || is_any "/:;=@[]|" c || Ascii.eqb c Json.backslash.

Definition encode (set : ascii -> bool) (l : list ascii) : list ascii :=
  flat_map (fun c => if set c then percent_byte c else [c]) l.

(** *** Scheme *)

Definition is_scheme_char (c : ascii) : bool := is_alpha c || is_digit c || is_any "+-." c.

Definition parse_scheme (l : list ascii) : option (string * list ascii) :=
  match l with
  | c :: r =>
      if is_alpha c then
        let '(sch, rest) := break (fun c => negb (is_scheme_char c)) r in
        match rest with
        | ":"%char :: rest' => Some (of_chars (map to_lower (c :: sch)), rest')
        | _ => None
        end
      else None
  | [] => None
  end.

(** *** Hosts *)

Definition forbidden_host (c : ascii) : bool :=
  existsb (Nat.eqb (code c)) [0; 9; 10; 13; 32]%nat || is_any "#/:<>?@[]^|" c
  || Ascii.eqb c Json.backslash.

Definition forbidden_domain (c : ascii) : bool :=
  forbidden_host c || (code c <? 32)%nat || Ascii.eqb c "%" || Nat.eqb (code c) 127.

Definition digit_in (radix : nat) (c : ascii) : option nat :=
  match Json.hex_val c with
  | Some v => if (v <? radix)%nat then Some v else None
  | None => None
  end.

Fixpoint number_in (radix : nat) (l : list ascii) (acc : N) : option N :=
  match l with
  | [] => Some acc
  | c :: r =>
      match digit_in radix c with
      | Some v => number_in radix r (acc * N.of_nat radix + N.of_nat v)%N
      | None => None
      end
  end.

(** The IPv4 number parser. *)
Definition ipv4_number (part : list ascii) : option N :=
  match part with
  | [] => None
  | "0"%char :: x :: r =>
      if Ascii.eqb x "x" || Ascii.eqb x "X" then number_in 16 r 0%N
      else number_in 8 (x :: r) 0%N
  | _ => number_in 10 part 0%N
  end.

Definition is_dot (c : ascii) : bool := Ascii.eqb c ".".

(** The parts of a host between its dots, a single trailing dot apart. *)
Definition host_parts (l : list ascii) : list (list ascii) :=
  let parts := split is_dot l in
  match rev parts with
  | [] :: (_ :: _) as others => rev others
  | _ => parts
  end.

Definition ends_in_number (l : list ascii) : bool :=
  match rev (host_parts l) with
  | last :: _ =>
      match last with
      | [] => false
      | _ => forallb is_digit last || bool_decide (is_Some (ipv4_number last))
      end
  | [] => false
  end.

Fixpoint all_some {A} (l : list (option A)) : option (list A) :=
  match l with
  | [] => Some []
  | Some a :: r => match all_some r with Some r' => Some (a :: r') | None => None end
  | None :: _ => None
  end.

Definition decimal_N (n : N) : string := URL.decimal (N.to_nat n).

(** The IPv4 parser followed by the IPv4 serializer. *)
Definition ipv4 (l : list ascii) : option string :=
  let parts := host_parts l in
  if (4 <? List.length parts)%nat then None else
  match all_some (map ipv4_number parts) with
  | None => None
  | Some numbers =>
      match rev numbers with
      | [] => None
      | last :: firsts =>
          if existsb (fun n => (255 <? n)%N) firsts then None
          else if (256 ^ (5 - N.of_nat (List.length numbers)) <=? last)%N then None
          else
            let address :=
              (last + fst (fold_left (fun '(sum, k) n => (sum + n * 256 ^ (3 - k), k + 1))
                             (rev firsts) (0, 0)))%N in
            Some (decimal_N (address / 16777216) +:+ "." +:+
                  decimal_N ((address / 65536) mod 256) +:+ "." +:+
                  decimal_N ((address / 256) mod 256) +:+ "." +:+
                  decimal_N (address mod 256))
      end
  end.

Definition has_punycode_label (l : list ascii) : bool :=
  existsb (starts_with (chars "xn--")) (split is_dot l).

(** The host parser; [opaque] for the host of a scheme that is not special. *)
Definition parse_host (opaque : bool) (l : list ascii) : option string :=
  match l with
  | "["%char :: _ => None
  | _ =>
      if opaque then
        if existsb forbidden_host l then None
        else Some (of_chars (encode c0_set l))
      else
        let domain := map to_lower l in
        if existsb (fun c => (127 <? code c)%nat || Ascii.eqb c "%") l then None
        else if has_punycode_label domain then None
        else if existsb forbidden_domain domain then None
        else match domain with
             | [] => None
             | _ => if ends_in_number domain then ipv4 domain else Some (of_chars domain)
             end
  end.

(** *** Paths *)

Definition single_dot (seg : list ascii) : bool :=
  let s := of_chars (map to_lower seg) in
  String.eqb s "." || String.eqb s "%2e".

Definition double_dot (seg : list ascii) : bool :=
  let s := of_chars (map to_lower seg) in
  String.eqb s ".." || String.eqb s ".%2e" || String.eqb s "%2e." || String.eqb s "%2e%2e".

(** Shortening a path removes its last segment. *)
Definition shorten (path : list string) : list string := removelast path.

(** The path state, one segment at a time; [last] tells whether the segment
    is the one that reaches the end of the path. *)
Fixpoint path_state (segs : list (list ascii)) (path : list string) : list string :=
  match segs with
  | [] => path
  | seg :: rest =>
      let last := match rest with [] => true | _ => false end in
      let buffer := encode path_set seg in
      let path' :=
        if double_dot buffer then
          (if last then shorten path ++ [""] else shorten path)
        else if single_dot buffer then
          (if last then path ++ [""] else path)
        else path ++ [of_chars buffer] in
      path_state rest path'
  end.

Definition is_slash (special : bool) (c : ascii) : bool :=
  Ascii.eqb c "/" || (special && Ascii.eqb c Json.backslash).

Definition is_query_or_fragment (c : ascii) : bool := is_any "?#" c.

(** The query state and the fragment state, from the character that ends
    the path on. *)
Definition parse_tail (special : bool) (l : list ascii) : option string * option string :=
  let fragment_of (r : list ascii) :=
    match r with
    | "#"%char :: f => Some (of_chars (encode fragment_set f))
    | _ => None
    end in
  match l with
  | "?"%char :: r =>
      let '(q, r') := break (fun c => Ascii.eqb c "#") r in
      (Some (of_chars (encode (if special then special_query_set else query_set) q)),
       fragment_of r')
  | _ => (None, fragment_of l)
  end.

(** The opaque path state: a space is escaped when the query or the fragment
    follows it (the input has lost its trailing spaces, so that a space at
    the end of the path is followed by one of them). *)
Fixpoint opaque_path (l : list ascii) : list ascii :=
  match l with
  | [] => []
  | c :: r =>
      (if Ascii.eqb c " " then
         match r with
         | [] => percent_byte c
         | _ => [c]
         end
       else if c0_set c then percent_byte c else [c]) ++ opaque_path r
  end.

(** *** The parser *)

Definition split_last_at (l : list ascii) : option (list ascii) * list ascii :=
  let '(after, before) := break (fun c => Ascii.eqb c "@") (rev l) in
  match before with
  | _ :: creds => (Some (rev creds), rev after)
  | [] => (None, l)
  end.

Definition parse_port (scheme : string) (l : list ascii) : option (option nat) :=
  if negb (forallb is_digit l) then None else
  match l with
  | [] => Some None
  | _ =>
      match number_in 10 l 0%N with
      | Some n =>
          if (65535 <? n)%N then None
          else if bool_decide (special_port scheme = Some (Some (N.to_nat n))) then Some None
          else Some (Some (N.to_nat n))
      | None => None
      end
  end.

(** The path start state and what follows it. *)
Definition parse_path (special : bool) (l : list ascii) : URL.Path * option string * option string :=
  let from_path_state (r : list ascii) :=
    let '(p, tail) := break is_query_or_fragment r in
    let '(q, f) := parse_tail special tail in
    (URL.Segments (path_state (split (is_slash special) p) []), q, f) in
  match l with
  | [] => if special then from_path_state [] else (URL.Segments [], None, None)
  | c :: r =>
      if is_slash special c then from_path_state r
      else if negb special && is_query_or_fragment c then
        let '(q, f) := parse_tail special l in (URL.Segments [], q, f)
      else from_path_state l
  end.

(** The authority state, the host state and the port state. *)
Definition parse_authority (scheme : string) (l : list ascii) : option URL.t :=
  let special := is_special scheme in
  let '(authority, rest) := break (fun c => is_slash special c || is_query_or_fragment c) l in
  let '(creds, hostport) := split_last_at authority in
  match creds, hostport with
  | Some _, [] => None
  | _, _ =>
      let '(hostpart, porttail) := break (fun c => Ascii.eqb c ":") hostport in
      let host_missing :=
        match hostpart, porttail with
        | [], _ :: _ => true
        | [], [] => special
        | _, _ => false
        end in
      if host_missing then None else
      match parse_host (negb special) hostpart with
      | None => None
      | Some h =>
          match parse_port scheme (tl porttail) with
          | None => None
          | Some port =>
              let '(user, pass) :=
                match creds with
                | Some cr =>
                    let '(u, p) := break (fun c => Ascii.eqb c ":") cr in
                    (of_chars (encode userinfo_set u), of_chars (encode userinfo_set (tl p)))
                | None => ("", "")
                end in
              let '(path, q, f) := parse_path special rest in
              Some (URL.mk scheme user pass (Some h) port path q f)
          end
      end
  end.

Definition parse (input : string) : option URL.t :=
  match parse_scheme (preprocess (chars input)) with
  | None => None
  | Some (scheme, rest) =>
      if String.eqb scheme "file" then None
      else if is_special scheme then
        parse_authority scheme (drop_while (is_slash true) rest)
      else
        match rest with
        | "/"%char :: "/"%char :: r => parse_authority scheme r
        | "/"%char :: _ =>
            let '(path, q, f) := parse_path false rest in
            Some (URL.mk scheme "" "" None None path q f)
        | _ =>
            let '(p, tail) := break is_query_or_fragment rest in
            let '(q, f) := parse_tail false tail in
            Some (URL.mk scheme "" "" None None (URL.Opaque (of_chars (opaque_path p))) q f)
        end
  end.

(** The origin getter: the tuple origin of a special scheme, serialized;
    an opaque origin otherwise. *)
Definition origin (u : URL.t) : string :=
  if is_special (URL.scheme u) && negb (String.eqb (URL.scheme u) "file") then
    URL.scheme u +:+ "://" +:+ URL.hostname u +:+
    match URL.port u with Some p => ":" +:+ URL.decimal p | None => "" end
  else "null".

End Whatwg.

(** The platform of a browser. *)
#[global] Instance browser : Platform := {|
  JSON_parse := Json.parse;
  JSON_stringify := Json.stringify;
  URL_new := fun s => match Whatwg.parse s with Some u => Normal u | None => Throw end;
  URL_origin := Whatwg.origin;
|}.

(** ** Notions the properties are stated with *)


(** A stored element has string-typed [id], [url] and [name]. *)
Definition wellFormed (e : value) : Prop :=
  exists i u n : string,
    get_opt e "id" = Some (Str i) /\ get_opt e "url" = Some (Str u) /\
    get_opt e "name" = Some (Str n).

(** The store takes the value [v] under the key [k]. *)
Definition accepts (st : Storage) (k v : string) : Prop := setItem st k v <> Throw.

(** Every pending timeout is the one [longPressTimerRef] holds. *)
Definition singleTimer (st : AppState) : Prop :=
  forall h d, pendingTimeouts st !! h = Some d -> longPressTimerRef st = Some h.

(** The slider of the settings panel is declared with [min={0} max={40}]:
    the values it reports lie in that range. *)
Definition sliderInRange (ev : Event) : Prop :=
  match ev with
  | BlurStrengthChange value => between 0 40 value
  | _ => True
  end.

(** The events of a press on a tile or on its delete button, and the
    passing of time. *)
Definition pressEvent (ev : Event) : Prop :=
  match ev with
  | PointerDown (Tile _) | PointerDown (DeleteBtn _) | TilePointerUp _
  | TilePointerCancel _ | TileClick _ | Elapse _ | TimeoutFires _ => True
  | _ => False
  end.

(** Every pending timeout is due at most 480 ms from now, and its handle
    is one that [setTimeout] has already given out. *)
Definition timersBounded (st : AppState) : Prop :=
  forall h due i, pendingTimeouts st !! h = Some (due, i) ->
    (due <= now st + 480)%nat /\ (h < nextTimeoutHandle st)%nat.

(** The shape of the groups [codePoints] makes: after its first byte a
    group has continuation bytes only, and a group that is not the first one
    starts with a byte that is none. *)
Definition tailOk (g : list ascii) : Prop :=
  match g with
  | _ :: t => forallb is_continuation t = true
  | [] => False
  end.

Definition headOk (g : list ascii) : Prop :=
  match g with
  | c :: _ => is_continuation c = false
  | [] => False
  end.

Definition is_css_newline (c : ascii) : bool :=
  existsb (Nat.eqb (code c)) [10; 12; 13]%nat.

(** The string token of CSS Syntax (consume a string token), from the
    character after the opening double quote: the string and what follows
    its closing quote.  A newline makes a bad string; an escaped newline is
    skipped; a hexadecimal escape, which [cssUrlValue] never writes, is not
    modelled and reported like a bad string. *)
Fixpoint cssStringToken (l acc : list ascii) : option (string * list ascii) :=
  match l with
  | [] => Some (of_chars (rev acc), [])
  | c :: r =>
      if Ascii.eqb c Json.dquote then Some (of_chars (rev acc), r)
      else if is_css_newline c then None
      else if Ascii.eqb c Json.backslash then
        match r with
        | [] => Some (of_chars (rev acc), [])
        | n :: r' =>
            if is_css_newline n then cssStringToken r' acc
            else if bool_decide (is_Some (Json.hex_val n)) then None
            else cssStringToken r' (n :: acc)
        end
      else cssStringToken r (c :: acc)
  end.

Section Notions.
Context `{Platform}.

(** The platform's JSON reads back what it wrote for [v]. *)
Definition JSON_roundtrips (v : value) : Prop :=
  JSON_stringify v <> "" /\ JSON_parse (JSON_stringify v) = Normal v.

(** What the specification says a kept element [e] is normalized to. *)
Definition normalizes (e : value) (s : Site) : Prop :=
  get_opt e "id" = Some (Str (id s)) /\
  get_opt e "url" = Some (Str (url s)) /\
  get_opt e "name" = Some (Str (name s)) /\
  (forall m, get_opt e "displayMode" = Some (Str (DisplayMode_toString m)) -> displayMode s = m) /\
  ((forall m, get_opt e "displayMode" <> Some (Str (DisplayMode_toString m))) -> displayMode s = auto) /\
  (forall c, get_opt e "color" = Some (Str c) -> color s = c) /\
  ((forall c, get_opt e "color" <> Some (Str c)) -> color s = "#4A7DFF") /\
  (forall i, get_opt e "iconUrl" = Some (Str i) -> iconUrl s = Some i) /\
  ((forall i, get_opt e "iconUrl" <> Some (Str i)) ->
   iconUrl s = match URL_new (url s) with
               | Normal u => Some (faviconTemplate (URL_origin u))
               | Throw => None
               end).

(** What loading gives back for a saved shortcut. *)
Definition reloads (saved loaded : Site) : Prop :=
  id loaded = id saved /\ url loaded = url saved /\ name loaded = name saved /\
  color loaded = color saved /\ displayMode loaded = displayMode saved /\
  iconUrl loaded = match iconUrl saved with
                   | Some i => Some i
                   | None => getFaviconUrl (url saved)
                   end.

(** The shortcut that loading gives back for a saved shortcut. *)
Definition reloaded (s : Site) : Site :=
  {| id := id s; url := url s; name := name s; color := color s;
     iconUrl := match iconUrl s with Some i => Some i | None => getFaviconUrl (url s) end;
     displayMode := displayMode s |}.

(** A background that is absent, or the serialization of an http or https
    URL that the platform parsed. *)
Definition validBackground (bg : option string) : Prop :=
  match bg with
  | None => True
  | Some b => exists c u, URL_new c = Normal u /\ is_http u = true /\ b = URL.toString u
  end.

(** The states the component can be in: the initial state over some store,
    and the states the events lead to. *)
Inductive Reachable : AppState -> Prop :=
| Reachable_init (st : Storage) : Reachable (initialState st)
| Reachable_step (ev : Event) (st : AppState) :
    Reachable st -> sliderInRange ev -> Reachable (fst (step ev st)).

End Notions.

(** The value of the member [iconUrl], and the text of the elements of a
    serialized collection. *)
Definition member_value (x : option string) : value :=
  match x with Some i => Str i | None => Null end.

Definition sites_text (sites : list Site) : list ascii :=
  Json.join "," (map Json.stringify_value (map Site_toJS sites)).

(** ** Concrete data for the evaluations *)

Definition siteA : Site :=
  {| id := "a"; url := "https://a.example/"; name := "A"; color := "#4A7DFF";
     iconUrl := Some "https://a.example/favicon.ico"; displayMode := auto |}.

Definition siteB : Site :=
  {| id := "b"; url := "https://b.example/"; name := "B"; color := "#00E9FF";
     iconUrl := None; displayMode := text |}.

Definition siteC : Site :=
  {| id := "c"; url := "https://c.example/"; name := "C"; color := "#9259FF";
     iconUrl := Some "https://a.example/favicon.ico"; displayMode := icon |}.

Definition emptyStore : Storage :=
  {| available := true; quota := None; items := ∅ |}.

(** A store that holds [v], serialized, under the shortcuts key. *)
Definition storeOf (v : value) : Storage :=
  {| available := true; quota := None; items := {[ STORAGE_KEY := Json.stringify v ]} |}.

(** One stored shortcut whose color is a string that is no color. *)
Definition bananaItems : list value :=
  [ Obj [ ("id", Str "a"); ("url", Str "https://a.example/");
          ("name", Str "A"); ("color", Str "banana") ] ].

Definition bananaStore : Storage := storeOf (Arr bananaItems).

(** A well-formed shortcut between an element without [name] and a number. *)
Definition mixedItems : list value :=
  [ Obj [ ("id", Str "x"); ("url", Str "https://x.example/") ];
    Obj [ ("id", Str "b"); ("url", Str "https://b.example/p?q");
          ("name", Str "B"); ("color", Num (of_Z 7));
          ("displayMode", Str "grid") ];
    Num (of_Z 3) ].

Definition mixedStore : Storage := storeOf (Arr mixedItems).

(** What loading [mixedStore] gives. *)
Definition mixedLoaded : list Site :=
  [ {| id := "b"; url := "https://b.example/p?q"; name := "B"; color := "#4A7DFF";
       iconUrl := Some "https://www.google.com/s2/favicons?domain_url=https%3A%2F%2Fb.example&sz=128";
       displayMode := auto |} ].


(** The component over the empty store, idle. *)
Definition idleState : AppState := initialState emptyStore.

(** Two shortcuts with the same icon URL. *)
Definition iconState : AppState := set_sites [siteA; siteC] idleState.


(** The settings panel with a draft for the background. *)
Definition draftState (draft : string) : AppState :=
  set_draftBgUrl draft
    (set_settings {| backgroundImage := Some "https://old.example/bg.png";
                     blurEnabled := true; blurStrength := of_Z 16 |} idleState).

(** ** Properties *)

Section Properties.
Context `{Platform}.

Lemma filter_eqb_decide (i : string) (l : list Site) :
  List.filter (fun s => negb (String.eqb (id s) i)) l = filter (fun s => id s <> i) l.
Proof.
  induction l as [|s l IH]; [reflexivity|].
  cbn [List.filter]. rewrite filter_cons, IH.
  destruct (String.eqb_spec (id s) i) as [E|E]; simpl;
    destruct (decide (id s <> i)); first [reflexivity | contradiction | tauto].
Qed.

Lemma filter_keeps_all {A} (P : A -> Prop) `{forall x, Decision (P x)} (l : list A) :
  (forall x, x ∈ l -> P x) -> filter P l = l.
Proof.
  induction l as [|x l IH]; intros Hall; [reflexivity|].
  rewrite filter_cons. destruct (decide (P x)) as [_|N].
  - f_equal. apply IH. intros y Hy. apply Hall. by right.
  - exfalso. apply N, Hall. by left.
Qed.

(** C10. [removeSite i] keeps exactly the shortcuts whose id differs from
    [i], each unchanged and in the original order; the settings and the icon
    failure flags are untouched; no shortcut is armed afterwards, also when no
    shortcut has the id [i], in which case the collection is unchanged. *)
Theorem removeSite_frame (i : string) (st : AppState) :
  sites (removeSite i st) = filter (fun s => id s <> i) (sites st) /\
  (forall s, s ∈ sites (removeSite i st) <-> s ∈ sites st /\ id s <> i) /\
  sublist (sites (removeSite i st)) (sites st) /\
  settings (removeSite i st) = settings st /\
  iconErrorById (removeSite i st) = iconErrorById st /\
  deleteArmedId (removeSite i st) = None /\
  ((forall s, s ∈ sites st -> id s <> i) -> sites (removeSite i st) = sites st).
Proof.
  assert (E : sites (removeSite i st) = filter (fun s => id s <> i) (sites st)).
  { unfold removeSite. cbn. apply filter_eqb_decide. }
  rewrite E.
  split; [reflexivity|].
  split; [intros s; rewrite list_elem_of_filter; tauto|].
  split; [apply sublist_filter|].
  split; [reflexivity|].
  split; [reflexivity|].
  split; [reflexivity|].
  apply filter_keeps_all.
Qed.

(** *** The icon failure flags *)

Lemma flagged_mono (errs errs' : gset string) (i : string) :
  errs ⊆ errs' -> flagged errs i = true -> flagged errs' i = true.
Proof.
  unfold flagged. intros Hsub Hf.
  apply orb_true_iff in Hf. apply orb_true_iff.
  destruct Hf as [Hf|Hf]; [left|right; exact Hf].
  apply bool_decide_eq_true in Hf. apply bool_decide_eq_true. set_solver.
Qed.

Lemma markIconError_flags (i : string) (st : AppState) :
  iconErrorById (markIconError i st) = iconErrorById st \/
  iconErrorById (markIconError i st) = {[ i ]} ∪ iconErrorById st.
Proof.
  unfold markIconError. destruct (flagged (iconErrorById st) i); [left|right]; reflexivity.
Qed.

Lemma addSite_flags (newId : string) (st : AppState) :
  iconErrorById (addSite newId st) = iconErrorById st.
Proof.
  unfold addSite.
  destruct (negb (truthy (normalizeUrl (draftUrl st))) || negb (truthy (trim (draftName st))));
    [reflexivity|].
  destruct (validateHttpUrl (normalizeUrl (draftUrl st))); reflexivity.
Qed.

Lemma applyBackgroundUrl_flags (st : AppState) :
  iconErrorById (applyBackgroundUrl st) = iconErrorById st.
Proof.
  unfold applyBackgroundUrl.
  destruct (truthy (trim (draftBgUrl st)) && _); reflexivity.
Qed.

Lemma clearLongPressTimer_flags (st : AppState) :
  iconErrorById (clearLongPressTimer st) = iconErrorById st.
Proof. unfold clearLongPressTimer. destruct (longPressTimerRef st); reflexivity. Qed.

Lemma pointerDown_flags (target : Element) (st : AppState) :
  iconErrorById (pointerDown target st) = iconErrorById st.
Proof.
  destruct target; cbn; try reflexivity;
    unfold armDeleteWithLongPress, cancelLongPress; cbn;
    rewrite ?clearLongPressTimer_flags; try reflexivity;
    unfold clearLongPressTimer; cbn; destruct (longPressTimerRef st); reflexivity.
Qed.

Lemma step_flags (ev : Event) (st : AppState) :
  iconErrorById st ⊆ iconErrorById (fst (step ev st)).
Proof.
  destruct ev; cbn [step fst];
    rewrite ?pointerDown_flags, ?addSite_flags, ?applyBackgroundUrl_flags;
    unfold cancelLongPress; rewrite ?clearLongPressTimer_flags; try reflexivity.
  - unfold tileClick. destruct (longPressTriggeredRef st); [reflexivity|].
    destruct (truthy_opt (deleteArmedId st)); reflexivity.
  - destruct (pendingTimeouts st !! h) as [[due i]|]; [|reflexivity].
    destruct (due <=? now st)%nat; reflexivity.
  - destruct (markIconError_flags (id site) st) as [E|E]; rewrite E;
      [reflexivity|apply union_subseteq_r].
Qed.

(** C9. A load failure of the icon of [a] sets the flag of the id of [a]
    and of no other id, so that what is shown for a shortcut [b] with another
    id is the same as before, whatever the icon URL of [b] (that of [a]
    included); the collection and the settings are untouched; and no event
    clears a flag that is set. *)
Theorem markIconError_frame (st : AppState) (a b : Site) :
  flagged (iconErrorById (markIconError (id a) st)) (id a) = true /\
  (id b <> id a ->
   flagged (iconErrorById (markIconError (id a) st)) (id b) = flagged (iconErrorById st) (id b) /\
   showIcon (markIconError (id a) st) b = showIcon st b) /\
  sites (markIconError (id a) st) = sites st /\
  settings (markIconError (id a) st) = settings st /\
  (forall (ev : Event) (i : string),
     flagged (iconErrorById st) i = true ->
     flagged (iconErrorById (fst (step ev st))) i = true).
Proof.
  split; [|split; [|split; [|split]]].
  - unfold markIconError.
    destruct (flagged (iconErrorById st) (id a)) eqn:E; [exact E|].
    cbn. unfold flagged. apply orb_true_iff. left.
    apply bool_decide_eq_true. set_solver.
  - intros Hne.
    assert (E : flagged (iconErrorById (markIconError (id a) st)) (id b)
                = flagged (iconErrorById st) (id b)).
    { destruct (markIconError_flags (id a) st) as [E|E]; rewrite E; [reflexivity|].
      unfold flagged. f_equal. apply bool_decide_ext.
      rewrite elem_of_union, elem_of_singleton.
      split; [intros [Eq|Hin]; [contradiction|exact Hin]|intros Hin; right; exact Hin]. }
    split; [exact E|]. unfold showIcon. rewrite E. reflexivity.
  - unfold markIconError. destruct (flagged _ _); reflexivity.
  - unfold markIconError. destruct (flagged _ _); reflexivity.
  - intros ev i. apply flagged_mono, step_flags.
Qed.

(** *** The background of the settings *)

Lemma truthy_true (s : string) : truthy s = true <-> s <> "".
Proof. destruct s; cbn; split; congruence. Qed.

Lemma toString_truthy (u : URL.t) : truthy (URL.toString u) = true.
Proof. unfold URL.toString. destruct (URL.scheme u); reflexivity. Qed.

Lemma validateHttpUrl_truthy (c u : string) :
  validateHttpUrl c = Some u -> truthy u = true.
Proof.
  unfold validateHttpUrl. destruct (URL_new c) as [v|]; cbn; [|discriminate].
  destruct (is_http v); cbn; [|discriminate].
  intros [= <-]. apply toString_truthy.
Qed.

Lemma normalizeUrl_truthy (raw : string) :
  truthy (trim raw) = true -> truthy (normalizeUrl raw) = true.
Proof.
  intros E. unfold normalizeUrl. rewrite E. cbn.
  destruct (hasHttpPrefix (trim raw)); [exact E|reflexivity].
Qed.

Lemma normalizeHttpUrlOrNull_validate (raw : string) :
  truthy (trim raw) = true ->
  normalizeHttpUrlOrNull raw = validateHttpUrl (normalizeUrl raw).
Proof.
  intros E. unfold normalizeHttpUrlOrNull.
  rewrite (normalizeUrl_truthy raw E). reflexivity.
Qed.


(** *** The long-press timer *)

Lemma clearLongPressTimer_pending (st : AppState) :
  singleTimer st -> pendingTimeouts (clearLongPressTimer st) = ∅.
Proof.
  intros Hwf. unfold clearLongPressTimer.
  destruct (longPressTimerRef st) as [h0|] eqn:Eref; cbn.
  - apply map_empty. intros h. destruct (decide (h0 = h)) as [->|Hne].
    + apply lookup_delete_eq.
    + rewrite lookup_delete_ne by exact Hne.
      destruct (pendingTimeouts st !! h) as [d|] eqn:El; [|reflexivity].
      specialize (Hwf h d El). congruence.
  - apply map_empty. intros h.
    destruct (pendingTimeouts st !! h) as [d|] eqn:El; [|reflexivity].
    specialize (Hwf h d El). congruence.
Qed.


Lemma clearLongPressTimer_frame (st : AppState) :
  sites (clearLongPressTimer st) = sites st /\
  settings (clearLongPressTimer st) = settings st /\
  deleteArmedId (clearLongPressTimer st) = deleteArmedId st /\
  longPressTriggeredRef (clearLongPressTimer st) = longPressTriggeredRef st /\
  nextTimeoutHandle (clearLongPressTimer st) = nextTimeoutHandle st /\
  now (clearLongPressTimer st) = now st.
Proof.
  unfold clearLongPressTimer. destruct (longPressTimerRef st); repeat split; reflexivity.
Qed.

(** The state after a pointer-down on a tile, field by field. *)
Lemma pointerDown_tile (site : Site) (st : AppState) :
  singleTimer st ->
  let st1 := pointerDown (Tile site) st in
  pendingTimeouts st1 = {[ nextTimeoutHandle st := ((now st + 480)%nat, id site) ]} /\
  longPressTimerRef st1 = Some (nextTimeoutHandle st) /\
  longPressTriggeredRef st1 = false /\
  deleteArmedId st1 = deleteArmedId st /\
  sites st1 = sites st /\
  settings st1 = settings st /\
  iconErrorById st1 = iconErrorById st /\
  now st1 = now st.
Proof.
  intros Hwf. cbn -[clearLongPressTimer].
  unfold armDeleteWithLongPress, setTimeout. cbn -[clearLongPressTimer].
  set (st0 := set_longPressTriggeredRef false st).
  assert (Hwf0 : singleTimer st0) by exact Hwf.
  destruct (clearLongPressTimer_frame st0) as (Hs & Hse & Hd & Ht & Hn & Hnow).
  rewrite (clearLongPressTimer_pending st0 Hwf0), Hs, Hse, Hd, Ht, Hn, Hnow.
  rewrite clearLongPressTimer_flags, insert_empty.
  repeat split; reflexivity.
Qed.


Lemma singleTimer_step (ev : Event) (st : AppState) :
  singleTimer st -> singleTimer (fst (step ev st)).
Proof.
  intros Hwf.
  assert (Hclear : forall st0, singleTimer st0 -> singleTimer (clearLongPressTimer st0)).
  { intros st0 H0 h d. rewrite (clearLongPressTimer_pending st0 H0), lookup_empty. discriminate. }
  destruct ev; cbn [step fst]; try exact Hwf; try (apply Hclear; exact Hwf).
  - destruct target; try exact Hwf;
      destruct (pointerDown_tile site st Hwf) as (Hp & Hr & _);
      intros h d; change (pointerDown (DeleteBtn site) st) with (pointerDown (Tile site) st);
      rewrite Hp, Hr; intros [<- _]%lookup_singleton_Some; reflexivity.
  - unfold tileClick. destruct (longPressTriggeredRef st); [exact Hwf|].
    destruct (truthy_opt (deleteArmedId st)); exact Hwf.
  - destruct (pendingTimeouts st !! h) as [[due i]|] eqn:E; [|exact Hwf].
    destruct (due <=? now st)%nat; [|exact Hwf].
    intros h' d. cbn. intros Hl.
    apply lookup_delete_Some in Hl as [_ Hl]. exact (Hwf h' d Hl).
  - unfold markIconError. destruct (flagged _ _); exact Hwf.
  - unfold addSite. destruct (_ || _); [exact Hwf|].
    destruct (validateHttpUrl _); exact Hwf.
  - unfold applyBackgroundUrl. destruct (_ && _); exact Hwf.
Qed.

Lemma singleTimer_initial (st : Storage) : singleTimer (initialState st).
Proof. intros h d. cbn. rewrite lookup_empty. discriminate. Qed.

(** Every reachable state has at most the one pending timeout the
    component remembers. *)
Lemma singleTimer_reachable (st : AppState) : Reachable st -> singleTimer st.
Proof.
  induction 1 as [sto|ev st _ IH _]; [apply singleTimer_initial|].
  apply singleTimer_step, IH.
Qed.

Lemma run_cons (ev : Event) (evs : list Event) (st : AppState) :
  run (ev :: evs) st =
  (fst (run evs (fst (step ev st))), snd (step ev st) :: snd (run evs (fst (step ev st)))).
Proof.
  cbn [run]. destruct (step ev st) as [st1 o]. cbn [fst snd].
  destruct (run evs st1) as [st2 os]. reflexivity.
Qed.


(** A press held until the timer fires: the shortcut is armed, and the click
    that follows the release is suppressed and resets the flag. *)
Lemma long_press (st : AppState) (site : Site) (dt : nat) (release : Event) :
  singleTimer st -> (480 <= dt)%nat ->
  release = TilePointerUp site \/ release = TilePointerCancel site ->
  let evs := [PointerDown (Tile site); Elapse dt; TimeoutFires (nextTimeoutHandle st);
              release; TileClick site] in
  pendingTimeouts (fst (run evs st)) = ∅ /\
  deleteArmedId (fst (run evs st)) = Some (id site) /\
  longPressTriggeredRef (fst (run evs st)) = false /\
  last (snd (run evs st)) = Some NoAction.
Proof.
  intros Hwf Hdt Hrel. cbv zeta.
  rewrite !run_cons. cbn [run fst snd].
  change (fst (step (PointerDown (Tile site)) st)) with (pointerDown (Tile site) st).
  destruct (pointerDown_tile site st Hwf) as (Hp & Hr & Ht & Hd & _ & _ & _ & Hnow).
  set (st1 := pointerDown (Tile site) st) in *.
  change (fst (step (Elapse dt) st1)) with (set_now (now st1 + dt)%nat st1).
  set (st2 := set_now (now st1 + dt)%nat st1).
  set (h := nextTimeoutHandle st) in *.
  assert (E3 : step (TimeoutFires h) st2
               = (longPressCallback (id site) (clearTimeout h st2), NoAction)).
  { cbn [step]. change (pendingTimeouts st2) with (pendingTimeouts st1).
    rewrite Hp, lookup_singleton_eq. change (now st2) with (now st1 + dt)%nat.
    rewrite Hnow. destruct (Nat.leb_spec (now st + 480) (now st + dt)); [reflexivity|lia]. }
  rewrite E3. cbn [fst snd].
  set (st3 := longPressCallback (id site) (clearTimeout h st2)).
  assert (Hp3 : pendingTimeouts st3 = ∅).
  { change (delete h (pendingTimeouts st1) = ∅). rewrite Hp. apply delete_singleton_eq. }
  assert (Hwf3 : singleTimer st3).
  { intros h' d. rewrite Hp3, lookup_empty. discriminate. }
  assert (E4 : fst (step release st3) = clearLongPressTimer st3).
  { destruct Hrel as [-> | ->]; reflexivity. }
  rewrite E4.
  set (st4 := clearLongPressTimer st3).
  destruct (clearLongPressTimer_frame st3) as (_ & _ & Hd4 & Ht4 & _ & _).
  pose proof (clearLongPressTimer_pending st3 Hwf3) as Hp4.
  fold st4 in Hd4, Ht4, Hp4.
  cbn [step]. unfold tileClick. rewrite Ht4.
  change (longPressTriggeredRef st3) with true. cbn [fst snd last].
  split; [exact Hp4|]. split; [exact Hd4|]. split; reflexivity.
Qed.




(** *** The blur strength *)






(** *** Loading the shortcuts *)

Lemma hasStringFields_obj (e : value) :
  hasStringFields e = true -> exists props, e = Obj props.
Proof.
  destruct e; cbn; try discriminate. intros _. eexists; reflexivity.
Qed.

Lemma as_string_Some (x : option value) (s : string) :
  as_string x = Some s <-> x = Some (Str s).
Proof.
  destruct x as [[| | |t| |]|]; cbn; split; intros E; try discriminate; congruence.
Qed.

Lemma hasStringFields_wellFormed (e : value) :
  hasStringFields e = true <-> wellFormed e.
Proof.
  unfold hasStringFields, wellFormed. rewrite !andb_true_iff, !bool_decide_eq_true.
  split.
  - intros [[[i Hi] [u Hu]] [n Hn]].
    exists i, u, n. rewrite <- !as_string_Some. auto.
  - intros (i & u & n & Hi & Hu & Hn). rewrite Hi, Hu, Hn. cbn. eauto.
Qed.

Lemma coerceDisplayMode_toString (m : DisplayMode) :
  coerceDisplayMode (Some (Str (DisplayMode_toString m))) = m.
Proof. destruct m; reflexivity. Qed.

Lemma coerceDisplayMode_other (x : option value) :
  (forall m, x <> Some (Str (DisplayMode_toString m))) -> coerceDisplayMode x = auto.
Proof.
  intros Hx. unfold coerceDisplayMode.
  destruct (as_string x) as [s|] eqn:E; [|reflexivity].
  apply as_string_Some in E. subst x.
  destruct (String.eqb_spec s "auto"); [reflexivity|].
  destruct (String.eqb_spec s "icon") as [->|]; [destruct (Hx icon); reflexivity|].
  destruct (String.eqb_spec s "text") as [->|]; [destruct (Hx text); reflexivity|].
  reflexivity.
Qed.

(** On an element the filter keeps, the normalizing callback completes
    normally, with the shortcut the specification describes. *)
Lemma normalizeStored_filtered (e : value) :
  hasStringFields e = true ->
  exists s, normalizeStored e = Normal s /\ normalizes e s /\
            color s = match get_opt e "color" with Some (Str c) => c | _ => "#4A7DFF" end.
Proof.
  intros Hk. destruct (hasStringFields_obj e Hk) as [props ->].
  apply hasStringFields_wellFormed in Hk. destruct Hk as (i & u & n & Hi & Hu & Hn).
  cbn in Hi, Hu, Hn. unfold normalizeStored. cbn. rewrite Hi, Hu, Hn. cbn.
  eexists. split; [reflexivity|]. split.
  - unfold normalizes. cbn. rewrite Hi, Hu, Hn.
    split; [reflexivity|]. split; [reflexivity|]. split; [reflexivity|].
    split; [intros m ->; apply coerceDisplayMode_toString|].
    split; [apply coerceDisplayMode_other|].
    split; [intros c ->; reflexivity|].
    split; [intros Hc; destruct (lookup_prop "color" props) as [[| | |c| |]|];
            try reflexivity; destruct (Hc c); reflexivity|].
    split; [intros ic ->; reflexivity|].
    intros Hic. destruct (lookup_prop "iconUrl" props) as [[| | |ic| |]|]; cbn;
      try (destruct (URL_new u); reflexivity).
    destruct (Hic ic); reflexivity.
  - cbn. destruct (lookup_prop "color" props) as [[| | |c| |]|]; reflexivity.
Qed.

Lemma mapM_Forall2 {A B} (f : A -> Completion B) (R : A -> B -> Prop) (l : list A) :
  (forall a, a ∈ l -> exists b, f a = Normal b /\ R a b) ->
  exists bs, mapM f l = Normal bs /\ Forall2 R l bs.
Proof.
  induction l as [|a l IH]; intros Hall.
  - exists []. split; [reflexivity|constructor].
  - destruct (Hall a) as (b & Hb & HR); [by left|].
    destruct IH as (bs & Hbs & HF); [intros a' Ha'; apply Hall; by right|].
    exists (b :: bs). cbn. rewrite Hb. cbn. rewrite Hbs. cbn.
    split; [reflexivity|constructor; assumption].
Qed.

Lemma loadSites_array (st : Storage) (raw : string) (items : list value)
    (R : value -> Site -> Prop) :
  getItem st STORAGE_KEY = Normal (Some raw) -> raw <> "" ->
  JSON_parse raw = Normal (Arr items) ->
  (forall e, hasStringFields e = true -> exists s, normalizeStored e = Normal s /\ R e s) ->
  Forall2 R (List.filter hasStringFields items) (loadSitesFromStorage st).
Proof.
  intros Hget Hraw Hparse HR. unfold loadSitesFromStorage.
  rewrite Hget. cbn. apply truthy_true in Hraw. rewrite Hraw. cbn. rewrite Hparse. cbn.
  destruct (mapM_Forall2 normalizeStored R (List.filter hasStringFields items))
    as (bs & Hbs & HF).
  - intros e He. apply HR. apply list_elem_of_In, filter_In in He. tauto.
  - rewrite Hbs. exact HF.
Qed.

(** C1. [loadSitesFromStorage] is total: whatever the store holds or does,
    it returns a collection.  The collection is empty when reading the store
    throws, when nothing or the empty string is stored, when the stored text
    is not JSON and when it is JSON but not an array.  Otherwise it has one
    shortcut for each element with string-typed [id], [url] and [name], in
    the order of the array and nothing else, with these three fields as
    stored, [displayMode] the stored one when it is auto, icon or text and
    auto otherwise, [color] the stored string or the first preset, [iconUrl]
    the stored string or the favicon URL of the origin of [url], or null
    when [url] does not parse. *)
Theorem loadSitesFromStorage_spec (st : Storage) :
  (getItem st STORAGE_KEY = Throw \/ getItem st STORAGE_KEY = Normal None \/
   getItem st STORAGE_KEY = Normal (Some "") -> loadSitesFromStorage st = []) /\
  (forall raw, getItem st STORAGE_KEY = Normal (Some raw) ->
     JSON_parse raw = Throw \/
     (exists v, JSON_parse raw = Normal v /\ forall items, v <> Arr items) ->
     loadSitesFromStorage st = []) /\
  (forall raw items, getItem st STORAGE_KEY = Normal (Some raw) -> raw <> "" ->
     JSON_parse raw = Normal (Arr items) ->
     Forall2 normalizes (List.filter hasStringFields items) (loadSitesFromStorage st)) /\
  (forall e, hasStringFields e = true <-> wellFormed e).
Proof.
  split; [|split; [|split]].
  - unfold loadSitesFromStorage. intros [-> | [-> | ->]]; reflexivity.
  - intros raw Hget Hbad. unfold loadSitesFromStorage. rewrite Hget. cbn.
    destruct (truthy raw); cbn; [|reflexivity].
    destruct Hbad as [-> | (v & -> & Hv)]; cbn; [reflexivity|].
    destruct v as [| | | |items|]; cbn; try reflexivity. destruct (Hv items); reflexivity.
  - intros raw items Hget Hraw Hparse.
    apply (loadSites_array st raw items normalizes Hget Hraw Hparse).
    intros e He. destruct (normalizeStored_filtered e He) as (s & Hs & Hn & _). eauto.
  - apply hasStringFields_wellFormed.
Qed.

(** *** Saving and loading *)

Lemma normalizeStored_toJS (s : Site) :
  hasStringFields (Site_toJS s) = true /\ normalizeStored (Site_toJS s) = Normal (reloaded s).
Proof.
  split; [reflexivity|].
  unfold normalizeStored, reloaded, getFaviconUrl.
  destruct s as [i u n c ic dm]. destruct dm, ic; reflexivity.
Qed.

Lemma mapM_toJS (l : list Site) :
  List.filter hasStringFields (map Site_toJS l) = map Site_toJS l /\
  mapM normalizeStored (map Site_toJS l) = Normal (map reloaded l).
Proof.
  induction l as [|s l [IH1 IH2]]; [split; reflexivity|].
  split.
  - cbn [map List.filter]. rewrite (proj1 (normalizeStored_toJS s)), IH1. reflexivity.
  - cbn [map mapM]. rewrite (proj2 (normalizeStored_toJS s)). cbn. rewrite IH2. reflexivity.
Qed.

Lemma reloaded_id (l : list Site) :
  (forall s, s ∈ l -> is_Some (iconUrl s)) -> map reloaded l = l.
Proof.
  induction l as [|s l IH]; intros Hall; [reflexivity|].
  cbn [map]. rewrite IH by (intros s' Hs'; apply Hall; by right).
  f_equal. destruct (Hall s) as [i Hi]; [by left|].
  destruct s as [? ? ? ? ic ?]. cbn in Hi. subst ic. reflexivity.
Qed.

Lemma saveSites_getItem (st : Storage) (sites : list Site) :
  accepts st STORAGE_KEY (JSON_stringify (Sites_toJS sites)) ->
  getItem (saveSites st sites) STORAGE_KEY = Normal (Some (JSON_stringify (Sites_toJS sites))).
Proof.
  unfold accepts, saveSites, setItem, getItem.
  destruct (available st) eqn:Ea; cbn; [|congruence].
  destruct (within_quota st _); cbn; [|congruence].
  intros _. rewrite lookup_insert_eq. reflexivity.
Qed.

(** C2. Saving a collection in a store that takes it, on a platform whose
    JSON reads back what it wrote for the collection, and loading again gives
    the collection back: shortcut for shortcut in the same order, every field
    as saved, except that an absent icon URL comes back derived from the URL
    of the shortcut; a collection in which every icon URL is present comes
    back exactly. *)
Theorem saveSites_loadSites (st : Storage) (sites : list Site) :
  accepts st STORAGE_KEY (JSON_stringify (Sites_toJS sites)) ->
  JSON_roundtrips (Sites_toJS sites) ->
  Forall2 reloads sites (loadSitesFromStorage (saveSites st sites)) /\
  ((forall s, s ∈ sites -> is_Some (iconUrl s)) ->
   loadSitesFromStorage (saveSites st sites) = sites).
Proof.
  intros Hacc [Hne Hrt].
  assert (E : loadSitesFromStorage (saveSites st sites) = map reloaded sites).
  { unfold loadSitesFromStorage. rewrite (saveSites_getItem st sites Hacc). cbn.
    apply truthy_true in Hne. rewrite Hne. cbn. rewrite Hrt. cbn.
    destruct (mapM_toJS sites) as [-> ->]. reflexivity. }
  rewrite E. split.
  - clear. induction sites as [|s l IH]; constructor; [|exact IH].
    unfold reloads, reloaded. cbn. repeat split; reflexivity.
  - apply reloaded_id.
Qed.

Lemma loadSites_saved (st : Storage) (sites : list Site) :
  accepts st STORAGE_KEY (JSON_stringify (Sites_toJS sites)) ->
  JSON_roundtrips (Sites_toJS sites) ->
  loadSitesFromStorage (saveSites st sites) = map reloaded sites.
Proof.
  intros Hacc [Hne Hrt].
  unfold loadSitesFromStorage. rewrite (saveSites_getItem st sites Hacc). cbn.
  apply truthy_true in Hne. rewrite Hne. cbn. rewrite Hrt. cbn.
  destruct (mapM_toJS sites) as [-> ->]. reflexivity.
Qed.

(** *** Colors *)



End Properties.

(** ** The JSON of the browser reads back the collections it writes *)

Module JsonFacts.
Import Json.

Lemma chars_of_chars (l : list ascii) : chars (of_chars l) = l.
Proof. apply list_ascii_of_string_of_list_ascii. Qed.

Lemma of_chars_chars (s : string) : of_chars (chars s) = s.
Proof. apply string_of_list_ascii_of_string. Qed.

(** One character of a string literal, as [quote_char] writes it, is read
    back as that character. *)
Lemma parse_quote_char (c : ascii) (fuel : nat) (r acc : list ascii) :
  parse_chars (S fuel) (quote_char c ++ r) acc = parse_chars fuel r (c :: acc).
Proof.
  destruct c as [[] [] [] [] [] [] [] []]; reflexivity.
Qed.

Lemma parse_chars_quoted (cs : list ascii) :
  forall (fuel : nat) (r acc : list ascii),
    (List.length cs < fuel)%nat ->
    parse_chars fuel (flat_map quote_char cs ++ dquote :: r) acc
    = Some (of_chars (rev acc ++ cs), r).
Proof.
  induction cs as [|c cs IH]; intros fuel r acc Hfuel.
  - destruct fuel as [|fuel]; [inversion Hfuel|].
    rewrite app_nil_r. reflexivity.
  - destruct fuel as [|fuel]; [inversion Hfuel|].
    cbn [flat_map]. rewrite <- app_assoc, parse_quote_char.
    rewrite IH by (cbn [List.length] in Hfuel; lia).
    cbn [rev]. rewrite <- app_assoc. reflexivity.
Qed.

Lemma quote_char_length (c : ascii) : (1 <= List.length (quote_char c))%nat.
Proof. destruct c as [[] [] [] [] [] [] [] []]; vm_compute; lia. Qed.

Lemma flat_map_quote_length (cs : list ascii) :
  (List.length cs <= List.length (flat_map quote_char cs))%nat.
Proof.
  induction cs as [|c cs IH]; [reflexivity|].
  cbn [flat_map List.length]. rewrite length_app. pose proof (quote_char_length c). lia.
Qed.

Lemma parse_string_quoted (s : string) (r : list ascii) :
  parse_string (flat_map quote_char (chars s) ++ dquote :: r) = Some (s, r).
Proof.
  unfold parse_string. rewrite parse_chars_quoted.
  - cbn [rev app]. rewrite of_chars_chars. reflexivity.
  - rewrite length_app. pose proof (flat_map_quote_length (chars s)). lia.
Qed.

(** The unfoldings of the three parsers at a positive fuel. *)
Lemma parse_value_string (fuel : nat) (s : string) (r : list ascii) :
  parse_value (S fuel) (quote s ++ r) = Some (Str s, r).
Proof.
  unfold quote. cbn [app]. rewrite <- app_assoc. cbn [app].
  change (parse_value (S fuel) (dquote :: ?l))
    with (match parse_string l with Some (s, r') => Some (Str s, r') | None => None end).
  rewrite parse_string_quoted. reflexivity.
Qed.

Lemma parse_value_null (fuel : nat) (r : list ascii) :
  parse_value (S fuel) (chars "null" ++ r) = Some (Null, r).
Proof. reflexivity. Qed.

(** A member [name : value] followed by a comma or by the closing brace. *)
Lemma parse_member (fuel : nat) (k : string) (v : value) (txt r : list ascii)
    (acc : list (string * value)) (last : bool) :
  (forall r', parse_value fuel (txt ++ r') = Some (v, r')) ->
  parse_members (S fuel)
    (quote k ++ ":"%char :: txt ++ (if last then "}"%char else ","%char) :: r) acc
  = if last then Some (Obj (set_prop k v acc), r)
    else parse_members fuel r (set_prop k v acc).
Proof.
  intros Hv. unfold quote. cbn [app]. rewrite <- app_assoc. cbn [app].
  change (parse_members (S fuel) (dquote :: ?l) acc)
    with (match parse_string l with
          | Some (k, r1) =>
              match skip_ws r1 with
              | ":"%char :: r2 =>
                  match parse_value fuel r2 with
                  | Some (v, r3) =>
                      match skip_ws r3 with
                      | ","%char :: r4 => parse_members fuel r4 (set_prop k v acc)
                      | "}"%char :: r4 => Some (Obj (set_prop k v acc), r4)
                      | _ => None
                      end
                  | None => None
                  end
              | _ => None
              end
          | None => None
          end).
  rewrite parse_string_quoted.
  change (skip_ws (":"%char :: ?l)) with (":"%char :: l). cbv iota beta.
  rewrite Hv. destruct last; reflexivity.
Qed.

Lemma parse_member_value (fuel : nat) (x : option string) (r : list ascii) :
  parse_value (S fuel) (stringify_value (member_value x) ++ r) = Some (member_value x, r).
Proof.
  destruct x as [i|]; [apply parse_value_string|apply parse_value_null].
Qed.

(** The text of one shortcut is read back as the shortcut. *)
Lemma parse_site (fuel : nat) (s : Site) (r : list ascii) :
  parse_value (8 + fuel) (stringify_value (Site_toJS s) ++ r) = Some (Site_toJS s, r).
Proof.
  unfold Site_toJS. fold (member_value (iconUrl s)).
  cbn [stringify_value map join fst snd Nat.add app].
  repeat first [rewrite <- app_assoc | progress cbn [app]].
  change (parse_value (S ?f) ("{"%char :: quote ?k ++ ?l))
    with (parse_members f (quote k ++ l) []).
  rewrite (parse_member _ "id" (Str (id s)) (quote (id s)) _ _ false)
    by (intros; apply parse_value_string).
  rewrite (parse_member _ "url" (Str (url s)) (quote (url s)) _ _ false)
    by (intros; apply parse_value_string).
  rewrite (parse_member _ "name" (Str (name s)) (quote (name s)) _ _ false)
    by (intros; apply parse_value_string).
  rewrite (parse_member _ "color" (Str (color s)) (quote (color s)) _ _ false)
    by (intros; apply parse_value_string).
  rewrite (parse_member _ "iconUrl" (member_value (iconUrl s))
             (stringify_value (member_value (iconUrl s))) _ _ false)
    by (intros; apply parse_member_value).
  rewrite (parse_member _ "displayMode" (Str (DisplayMode_toString (displayMode s)))
             (quote (DisplayMode_toString (displayMode s))) _ _ true)
    by (intros; apply parse_value_string).
  reflexivity.
Qed.

Lemma parse_elements_eq (f : nat) (l : list ascii) (a : list value) :
  parse_elements (S f) l a
  = match parse_value f l with
    | Some (v, r0) =>
        match skip_ws r0 with
        | ","%char :: r' => parse_elements f r' (v :: a)
        | "]"%char :: r' => Some (Arr (rev (v :: a)), r')
        | _ => None
        end
    | None => None
    end.
Proof. reflexivity. Qed.

(** The elements of a non-empty array of shortcuts, up to the bracket. *)
Lemma parse_sites (sites : list Site) :
  forall (fuel : nat) (acc : list value) (r : list ascii),
    sites <> [] ->
    parse_elements (List.length sites + 8 + fuel) (sites_text sites ++ "]"%char :: r) acc
    = Some (Arr (rev acc ++ map Site_toJS sites), r).
Proof.
  induction sites as [|s tl IH]; intros fuel acc r Hne; [congruence|].
  destruct tl as [|s' tl'].
  - unfold sites_text. cbn [map join List.length Nat.add].
    rewrite parse_elements_eq.
    rewrite (parse_site fuel s). reflexivity.
  - unfold sites_text. cbn [map join]. rewrite <- app_assoc. cbn [app].
    replace (List.length (s :: s' :: tl') + 8 + fuel)%nat
      with (S (8 + (List.length (s' :: tl') + fuel))) by (cbn [List.length]; lia).
    rewrite parse_elements_eq.
    rewrite parse_site.
    change (skip_ws (","%char :: ?l)) with (","%char :: l). cbv iota beta.
    replace (8 + (List.length (s' :: tl') + fuel))%nat
      with (List.length (s' :: tl') + 8 + fuel)%nat by lia.
    specialize (IH fuel (Site_toJS s :: acc) r ltac:(discriminate)).
    unfold sites_text in IH. cbn [map join] in IH. rewrite IH.
    cbn [rev map]. rewrite <- app_assoc. reflexivity.
Qed.

Lemma site_text_length (s : Site) :
  (8 <= List.length (stringify_value (Site_toJS s)))%nat.
Proof.
  unfold Site_toJS. cbn [stringify_value map join fst snd].
  repeat first [rewrite length_app | progress cbn [List.length]]. lia.
Qed.

Lemma sites_text_length (sites : list Site) :
  (8 * List.length sites <= List.length (sites_text sites))%nat.
Proof.
  unfold sites_text. induction sites as [|s tl IH]; [reflexivity|].
  pose proof (site_text_length s) as Hs.
  destruct tl as [|s' tl']; cbn [map join List.length] in *; [lia|].
  rewrite length_app. cbn [List.length]. lia.
Qed.

(** [JSON.parse(JSON.stringify(sites))] gives [sites] back. *)
Lemma parse_stringify_sites (sites : list Site) :
  parse (stringify (Sites_toJS sites)) = Normal (Sites_toJS sites).
Proof.
  destruct sites as [|s tl]; [reflexivity|].
  unfold parse, stringify. rewrite chars_of_chars.
  unfold Sites_toJS. cbn [stringify_value].
  fold (sites_text (s :: tl)).
  pose proof (sites_text_length (s :: tl)) as Hlen.
  set (txt := sites_text (s :: tl)) in *.
  assert (Hfuel : exists f, (2 * List.length ("["%char :: txt ++ ["]"%char]) + 2
                             = S (List.length (s :: tl) + 8 + f))%nat).
  { exists (2 * List.length ("["%char :: txt ++ ["]"%char]) + 1
            - (List.length (s :: tl) + 8))%nat.
    cbn [List.length] in *. rewrite length_app. cbn [List.length]. lia. }
  destruct Hfuel as [f ->].
  assert (Hopen : exists c rest, txt = c :: rest /\ c = "{"%char) .
  { subst txt. unfold sites_text. destruct tl; cbn [map join stringify_value Site_toJS app];
      eexists _, _; split; reflexivity. }
  destruct Hopen as (c & rest & Etxt & ->).
  change (parse_value (S ?fu) ("["%char :: ?l))
    with (match skip_ws l with
          | "]"%char :: r' => Some (Arr [], r')
          | r' => parse_elements fu r' []
          end).
  rewrite Etxt. cbn [app].
  change (skip_ws ("{"%char :: ?l)) with ("{"%char :: l). cbv iota beta.
  change ("{"%char :: rest ++ ["]"%char]) with (("{"%char :: rest) ++ ["]"%char]).
  rewrite <- Etxt. subst txt.
  rewrite parse_sites by discriminate. reflexivity.
Qed.

End JsonFacts.

(** On the platform of a browser, every collection survives
    [JSON.stringify] followed by [JSON.parse]. *)
Lemma browser_JSON_roundtrips (sites : list Site) :
  JSON_roundtrips (Sites_toJS sites).
Proof.
  split.
  - intros E. apply (f_equal chars) in E.
    cbn [JSON_stringify browser] in E. unfold Json.stringify in E.
    rewrite JsonFacts.chars_of_chars in E. discriminate E.
  - apply JsonFacts.parse_stringify_sites.
Qed.

(** On the platform of a browser, what is loaded after a save that the
    store took is the saved collection, absent icon URLs derived. *)
Lemma browser_loadSites_saved (st : Storage) (sites : list Site) :
  accepts st STORAGE_KEY (JSON_stringify (Sites_toJS sites)) ->
  loadSitesFromStorage (saveSites st sites) = map reloaded sites.
Proof.
  intros Hacc. apply loadSites_saved; [exact Hacc|apply browser_JSON_roundtrips].
Qed.

(** ** Evaluations on the platform of a browser *)

(** C4. [validateHttpUrl] rejects [ftp://x.com].  [normalizeUrl] puts
    [https://] in front of it, since it does not start with [http://] or
    [https://]; the result parses as an https URL whose host is [ftp], so
    that [normalizeHttpUrlOrNull] accepts the input, and [addSite] adds a
    shortcut to [https://ftp//x.com]. *)
Theorem ftp_url_after_normalization :
  validateHttpUrl "ftp://x.com" = None /\
  normalizeUrl "ftp://x.com" = "https://ftp://x.com" /\
  normalizeHttpUrlOrNull "ftp://x.com" = Some "https://ftp//x.com" /\
  map url (sites (addSite "id1" (set_draftName "X" (set_draftUrl "ftp://x.com" idleState))))
  = [ "https://ftp//x.com" ].
Proof. repeat split; vm_compute; reflexivity. Qed.

(** The examples of the specification for [validateHttpUrl]. *)
Lemma validateHttpUrl_examples :
  validateHttpUrl "example.com" = None /\
  validateHttpUrl (normalizeUrl "example.com") = Some "https://example.com/" /\
  normalizeHttpUrlOrNull "not a url" = None.
Proof. repeat split; vm_compute; reflexivity. Qed.




(** *** The theorems at concrete inputs *)

Lemma emptyStore_accepts (sites : list Site) :
  accepts emptyStore STORAGE_KEY (JSON_stringify (Sites_toJS sites)).
Proof. unfold accepts, setItem. cbn. discriminate. Qed.

(** C2 at the collections [[siteA; siteB]] and [[siteA; siteC]]. *)
Lemma saveSites_loadSites_witness :
  JSON_roundtrips (Sites_toJS [siteA; siteB]) /\
  Forall2 reloads [siteA; siteB] (loadSitesFromStorage (saveSites emptyStore [siteA; siteB])) /\
  loadSitesFromStorage (saveSites emptyStore [siteA; siteC]) = [siteA; siteC].
Proof.
  assert (Hab : JSON_roundtrips (Sites_toJS [siteA; siteB])).
  { split; [vm_compute; discriminate|vm_compute; reflexivity]. }
  assert (Hac : JSON_roundtrips (Sites_toJS [siteA; siteC])).
  { split; [vm_compute; discriminate|vm_compute; reflexivity]. }
  split; [exact Hab|]. split.
  - exact (proj1 (saveSites_loadSites emptyStore [siteA; siteB]
                    (emptyStore_accepts [siteA; siteB]) Hab)).
  - apply (proj2 (saveSites_loadSites emptyStore [siteA; siteC]
                    (emptyStore_accepts [siteA; siteC]) Hac)).
    intros s Hs. apply list_elem_of_In in Hs.
    destruct Hs as [<- | [<- | []]]; eexists; reflexivity.
Defined.



Lemma storeOf_getItem (v : value) :
  getItem (storeOf v) STORAGE_KEY = Normal (Some (Json.stringify v)).
Proof.
  unfold getItem, storeOf. cbn [available items].
  rewrite lookup_singleton_eq. reflexivity.
Qed.

(** The loads of the example stores. *)
Lemma load_examples :
  loadSitesFromStorage mixedStore = mixedLoaded /\
  loadSitesFromStorage (storeOf (Str "x")) = [] /\
  loadSitesFromStorage emptyStore = [] /\
  map color (loadSitesFromStorage bananaStore) = [ "banana" ].
Proof. repeat split; vm_compute; reflexivity. Qed.

(** ** Further properties of the program *)

Section More.
Context `{Platform}.

(** *** Loading the settings *)

Lemma validateHttpUrl_valid (c : string) : validBackground (validateHttpUrl c).
Proof.
  unfold validateHttpUrl. destruct (URL_new c) as [u|] eqn:E; cbn; [|exact I].
  destruct (is_http u) eqn:Eh; cbn; [|exact I].
  exists c, u. auto.
Qed.

Lemma loadSettings_valid (st : Storage) :
  validBackground (backgroundImage (loadSettingsFromStorage st)).
Proof.
  unfold loadSettingsFromStorage.
  destruct (getItem st SETTINGS_KEY) as [raw|]; cbn; [|exact I].
  destruct (truthy_opt raw); cbn; [|exact I].
  destruct (JSON_parse (default "" raw)) as [parsed|]; cbn; [|exact I].
  destruct (get parsed "blurStrength") as [bs|]; cbn; [|exact I].
  destruct (get parsed "backgroundImage") as [bg|]; cbn; [|exact I].
  destruct (get parsed "blurEnabled") as [be|]; cbn; [|exact I].
  destruct (as_string bg) as [b|]; [apply validateHttpUrl_valid|exact I].
Qed.

Lemma clamp_16 : Math_min (of_Z 40) (Math_max (of_Z 0) (of_Z 16)) = of_Z 16.
Proof. reflexivity. Qed.

(** X1. [loadSettingsFromStorage] falls back to the defaults (no background,
    blur enabled, strength 16) when reading the store throws, when nothing or
    the empty string is stored, when the text is not JSON, and when it is
    JSON but not an object ([null] included, on which the first property
    read throws).  When the text is a JSON object each field is recovered on
    its own: a boolean [blurEnabled] is kept and anything else is [true]; a
    string [backgroundImage] that validates is kept in canonical form and
    anything else is absent.  The background it returns is always absent or
    a parsed http/https URL. *)
Theorem loadSettingsFromStorage_fallback (st : Storage) :
  (getItem st SETTINGS_KEY = Throw \/ getItem st SETTINGS_KEY = Normal None \/
   getItem st SETTINGS_KEY = Normal (Some "") ->
   loadSettingsFromStorage st = defaultSettings) /\
  (forall raw, getItem st SETTINGS_KEY = Normal (Some raw) ->
     JSON_parse raw = Throw \/
     (exists v, JSON_parse raw = Normal v /\ forall props, v <> Obj props) ->
     loadSettingsFromStorage st = defaultSettings) /\
  (forall raw props, getItem st SETTINGS_KEY = Normal (Some raw) -> raw <> "" ->
     JSON_parse raw = Normal (Obj props) ->
     blurEnabled (loadSettingsFromStorage st)
     = match lookup_prop "blurEnabled" props with Some (Bool b) => b | _ => true end /\
     backgroundImage (loadSettingsFromStorage st)
     = match lookup_prop "backgroundImage" props with
       | Some (Str s) => validateHttpUrl s
       | _ => None
       end) /\
  validBackground (backgroundImage (loadSettingsFromStorage st)).
Proof.
  split; [|split; [|split]].
  - unfold loadSettingsFromStorage. intros [-> | [-> | ->]]; reflexivity.
  - intros raw Hget Hbad. unfold loadSettingsFromStorage. rewrite Hget. cbn.
    destruct (truthy raw); cbn; [|reflexivity].
    destruct Hbad as [-> | (v & -> & Hv)]; cbn; [reflexivity|].
    destruct v as [| | | | |props]; try reflexivity. destruct (Hv props); reflexivity.
  - intros raw props Hget Hraw Hparse. unfold loadSettingsFromStorage.
    rewrite Hget. cbn. apply truthy_true in Hraw. rewrite Hraw. cbn. rewrite Hparse. cbn.
    split.
    + destruct (lookup_prop "blurEnabled" props) as [[| | | | |]|]; reflexivity.
    + destruct (lookup_prop "backgroundImage" props) as [[| | | | |]|]; reflexivity.
  - apply loadSettings_valid.
Qed.

(** *** Invariants of the component *)

Lemma step_background (ev : Event) (st : AppState) :
  backgroundImage (settings (fst (step ev st))) = backgroundImage (settings st) \/
  backgroundImage (settings (fst (step ev st))) = None \/
  exists c, backgroundImage (settings (fst (step ev st))) = validateHttpUrl c.
Proof.
  destruct ev; cbn [step fst]; try (left; reflexivity).
  - left. destruct target; cbn -[clearLongPressTimer]; try reflexivity;
      unfold armDeleteWithLongPress, setTimeout; cbn -[clearLongPressTimer];
      apply f_equal;
      exact (proj1 (proj2 (clearLongPressTimer_frame (set_longPressTriggeredRef false st)))).
  - left. unfold cancelLongPress. apply f_equal, clearLongPressTimer_frame.
  - left. unfold cancelLongPress. apply f_equal, clearLongPressTimer_frame.
  - left. unfold tileClick. destruct (longPressTriggeredRef st); [reflexivity|].
    destruct (truthy_opt (deleteArmedId st)); reflexivity.
  - left. destruct (pendingTimeouts st !! h) as [[due i]|]; [|reflexivity].
    destruct (due <=? now st)%nat; reflexivity.
  - left. unfold markIconError. destruct (flagged _ _); reflexivity.
  - left. unfold addSite. destruct (_ || _); [reflexivity|].
    destruct (validateHttpUrl _); reflexivity.
  - unfold applyBackgroundUrl.
    destruct (truthy (trim (draftBgUrl st))) eqn:Et; cbn.
    + rewrite (normalizeHttpUrlOrNull_validate _ Et).
      destruct (validateHttpUrl (normalizeUrl (draftBgUrl st))) as [u|] eqn:Ev; cbn.
      * rewrite (validateHttpUrl_truthy _ _ Ev). cbn. right. right. eexists. symmetry. exact Ev.
      * left. reflexivity.
    + right. left. reflexivity.
  - right. left. reflexivity.
Qed.

(** X2. In every reachable state the background of the settings is absent
    or the serialization of an http/https URL that the platform parsed:
    loading, applying and clearing are the only writers, and each of them
    validates. *)
Theorem background_invariant (st : AppState) :
  Reachable st -> validBackground (backgroundImage (settings st)).
Proof.
  induction 1 as [sto|ev st _ IH _].
  - apply loadSettings_valid.
  - destruct (step_background ev st) as [-> | [-> | [c ->]]];
      [exact IH|exact I|apply validateHttpUrl_valid].
Qed.

Lemma step_panels (ev : Event) (st : AppState) :
  isAddOpen st && isSettingsOpen st = false ->
  isAddOpen (fst (step ev st)) && isSettingsOpen (fst (step ev st)) = false.
Proof.
  intros Hex.
  assert (Hclear : forall st0, isAddOpen (clearLongPressTimer st0) = isAddOpen st0 /\
                               isSettingsOpen (clearLongPressTimer st0) = isSettingsOpen st0).
  { intros st0. unfold clearLongPressTimer. destruct (longPressTimerRef st0); split; reflexivity. }
  destruct ev; cbn [step fst]; try exact Hex; try reflexivity.
  - destruct target; cbn -[clearLongPressTimer]; try exact Hex; try reflexivity;
      try (unfold armDeleteWithLongPress, setTimeout; cbn -[clearLongPressTimer];
           destruct (Hclear (set_longPressTriggeredRef false st)) as [-> ->]; exact Hex).
    apply andb_false_r.
  - unfold cancelLongPress. destruct (Hclear st) as [-> ->]. exact Hex.
  - unfold cancelLongPress. destruct (Hclear st) as [-> ->]. exact Hex.
  - unfold tileClick. destruct (longPressTriggeredRef st); [exact Hex|].
    destruct (truthy_opt (deleteArmedId st)); exact Hex.
  - destruct (pendingTimeouts st !! h) as [[due i]|]; [|exact Hex].
    destruct (due <=? now st)%nat; exact Hex.
  - unfold markIconError. destruct (flagged _ _); exact Hex.
  - apply andb_false_r.
  - unfold addSite. destruct (_ || _); [exact Hex|].
    destruct (validateHttpUrl _); [reflexivity|exact Hex].
  - unfold applyBackgroundUrl.
    destruct (truthy (trim (draftBgUrl st)) && _); exact Hex.
Qed.

(** X3. The two panels are never open together: in every reachable state
    at most one of the add form and the settings panel is open. *)
Theorem panels_exclusive (st : AppState) :
  Reachable st -> isAddOpen st && isSettingsOpen st = false.
Proof.
  induction 1 as [sto|ev st _ IH _]; [reflexivity|apply step_panels, IH].
Qed.

(** *** The timers of a session *)

Lemma clearLongPressTimer_lookup (st : AppState) (h : nat) (x : nat * string) :
  pendingTimeouts (clearLongPressTimer st) !! h = Some x -> pendingTimeouts st !! h = Some x.
Proof.
  unfold clearLongPressTimer. destruct (longPressTimerRef st) as [h0|]; cbn; [|auto].
  intros Hl. apply lookup_delete_Some in Hl. tauto.
Qed.

Lemma pointerDown_tile_next (site : Site) (st : AppState) :
  nextTimeoutHandle (pointerDown (Tile site) st) = S (nextTimeoutHandle st).
Proof.
  cbn -[clearLongPressTimer]. unfold armDeleteWithLongPress, setTimeout.
  cbn -[clearLongPressTimer]. f_equal.
  exact (proj1 (proj2 (proj2 (proj2 (proj2
           (clearLongPressTimer_frame (set_longPressTriggeredRef false st))))))).
Qed.

Lemma timersBounded_step (ev : Event) (st : AppState) :
  singleTimer st -> timersBounded st -> timersBounded (fst (step ev st)).
Proof.
  intros Hwf Hb.
  assert (Hclear : forall st0, timersBounded st0 -> timersBounded (clearLongPressTimer st0)).
  { intros st0 H0 h due i Hl. apply clearLongPressTimer_lookup in Hl.
    destruct (clearLongPressTimer_frame st0) as (_ & _ & _ & _ & -> & ->). exact (H0 h due i Hl). }
  assert (Htile : forall site, timersBounded (pointerDown (Tile site) st)).
  { intros site h due i. destruct (pointerDown_tile site st Hwf) as (Hp & _ & _ & _ & _ & _ & _ & Hnow).
    rewrite Hp, Hnow, pointerDown_tile_next.
    intros [<- [= <- _]]%lookup_singleton_Some. lia. }
  destruct ev; cbn [step fst]; try exact Hb; try (apply Hclear; exact Hb).
  - destruct target; try exact Hb; apply Htile.
  - unfold tileClick. destruct (longPressTriggeredRef st); [exact Hb|].
    destruct (truthy_opt (deleteArmedId st)); exact Hb.
  - intros h due i Hl. cbn in Hl |- *. destruct (Hb h due i Hl). lia.
  - destruct (pendingTimeouts st !! h) as [[due0 i0]|] eqn:E; [|exact Hb].
    destruct (due0 <=? now st)%nat; [|exact Hb].
    intros h' due i Hl. cbn in Hl |- *.
    apply lookup_delete_Some in Hl as [_ Hl]. exact (Hb h' due i Hl).
  - unfold markIconError. destruct (flagged _ _); exact Hb.
  - unfold addSite. destruct (_ || _); [exact Hb|].
    destruct (validateHttpUrl _); exact Hb.
  - unfold applyBackgroundUrl. destruct (truthy (trim (draftBgUrl st)) && _); exact Hb.
Qed.

Lemma singleTimer_size (st : AppState) :
  singleTimer st -> (size (pendingTimeouts st) <= 1)%nat.
Proof.
  intros Hwf. destruct (longPressTimerRef st) as [h0|] eqn:Eref.
  - destruct (pendingTimeouts st !! h0) as [x|] eqn:E0.
    + replace (pendingTimeouts st) with ({[ h0 := x ]} : gmap nat (nat * string)).
      * rewrite map_size_singleton. lia.
      * apply map_eq. intros h. destruct (decide (h0 = h)) as [<-|Hne].
        -- rewrite lookup_singleton_eq. symmetry. exact E0.
        -- rewrite lookup_singleton_ne by exact Hne.
           destruct (pendingTimeouts st !! h) as [d|] eqn:El; [|reflexivity].
           specialize (Hwf h d El). congruence.
    + replace (pendingTimeouts st) with (∅ : gmap nat (nat * string)); [rewrite map_size_empty; lia|].
      symmetry. apply map_empty. intros h.
      destruct (pendingTimeouts st !! h) as [d|] eqn:El; [|reflexivity].
      specialize (Hwf h d El). congruence.
  - replace (pendingTimeouts st) with (∅ : gmap nat (nat * string)); [rewrite map_size_empty; lia|].
    symmetry. apply map_empty. intros h.
    destruct (pendingTimeouts st !! h) as [d|] eqn:El; [|reflexivity].
    specialize (Hwf h d El). congruence.
Qed.

(** X4. In every reachable state at most one timeout is pending; it is the
    one whose handle [longPressTimerRef] holds, it is due no later than 480 ms
    from now, and its handle is older than the next one [setTimeout] gives
    out: a press never leaves the timer of an earlier press behind. *)
Theorem timers_invariant (st : AppState) :
  Reachable st ->
  (size (pendingTimeouts st) <= 1)%nat /\
  (forall h due i, pendingTimeouts st !! h = Some (due, i) ->
     longPressTimerRef st = Some h /\
     (due <= now st + 480)%nat /\ (h < nextTimeoutHandle st)%nat).
Proof.
  intros Hr.
  assert (Hinv : singleTimer st /\ timersBounded st).
  { induction Hr as [sto|ev st _ [IH1 IH2] _].
    - split; [apply singleTimer_initial|].
      intros h due i. cbn. rewrite lookup_empty. discriminate.
    - split; [apply singleTimer_step, IH1|apply timersBounded_step; assumption]. }
  destruct Hinv as [Hwf Hb]. split; [apply singleTimer_size, Hwf|].
  intros h due i Hl. split; [exact (Hwf h _ Hl)|exact (Hb h due i Hl)].
Qed.

Lemma clearLongPressTimer_armed (st : AppState) :
  deleteArmedId (clearLongPressTimer st) = deleteArmedId st.
Proof. apply clearLongPressTimer_frame. Qed.

(** X5. A shortcut becomes the armed one in one way only: the timeout of a
    press on its tile fires, pending and due.  No other event arms a
    shortcut that was not armed before it. *)
Theorem armed_only_by_timeout (ev : Event) (st : AppState) (i : string) :
  deleteArmedId (fst (step ev st)) = Some i ->
  deleteArmedId st = Some i \/
  exists h due, ev = TimeoutFires h /\
                pendingTimeouts st !! h = Some (due, i) /\ (due <= now st)%nat.
Proof.
  destruct ev; cbn [step fst]; try (intros E; left; exact E); try discriminate.
  - destruct target; cbn -[clearLongPressTimer]; try discriminate;
      try (intros E; left; exact E);
      unfold armDeleteWithLongPress, setTimeout; cbn -[clearLongPressTimer];
      rewrite clearLongPressTimer_armed; intros E; left; exact E.
  - unfold cancelLongPress. rewrite clearLongPressTimer_armed. auto.
  - unfold cancelLongPress. rewrite clearLongPressTimer_armed. auto.
  - unfold tileClick. destruct (longPressTriggeredRef st); [auto|].
    destruct (truthy_opt (deleteArmedId st)); auto.
  - destruct (pendingTimeouts st !! h) as [[due i0]|] eqn:E; [|auto].
    destruct (Nat.leb_spec due (now st)); [|auto].
    cbn. intros [= <-]. right. exists h, due. auto.
  - unfold markIconError. destruct (flagged _ _); auto.
  - unfold addSite. destruct (_ || _); [auto|].
    destruct (validateHttpUrl _); auto.
  - unfold applyBackgroundUrl. destruct (truthy (trim (draftBgUrl st)) && _); auto.
Qed.

(** *** The add form *)

Lemma validateHttpUrl_Some (c v : string) :
  validateHttpUrl c = Some v <->
  exists u, URL_new c = Normal u /\ is_http u = true /\ v = URL.toString u.
Proof.
  unfold validateHttpUrl. destruct (URL_new c) as [u|]; cbn.
  - destruct (is_http u) eqn:E; cbn; split.
    + intros [= <-]. exists u. auto.
    + intros (u' & [= <-] & _ & ->). reflexivity.
    + discriminate.
    + intros (u' & [= <-] & E' & _). congruence.
  - split; [discriminate|]. intros (u & Hu & _). discriminate.
Qed.

Lemma canSave_validate (st : AppState) :
  canSave st = true <->
  trim (draftName st) <> "" /\ normalizeUrl (draftUrl st) <> "" /\
  exists v, validateHttpUrl (normalizeUrl (draftUrl st)) = Some v.
Proof.
  unfold canSave. rewrite <- !truthy_true.
  destruct (truthy (normalizeUrl (draftUrl st))); cbn;
    [|split; [discriminate|intros (_ & E & _); discriminate]].
  destruct (truthy (trim (draftName st))); cbn;
    [|split; [discriminate|intros (E & _); discriminate]].
  unfold validateHttpUrl. destruct (URL_new (normalizeUrl (draftUrl st))) as [u|]; cbn.
  - destruct (is_http u); cbn.
    + split; [intros _; eauto|reflexivity].
    + split; [discriminate|]. intros (_ & _ & v & E). discriminate.
  - split; [discriminate|]. intros (_ & _ & v & E). discriminate.
Qed.

(** The shortcut [addSite] builds from the drafts and the canonical URL. *)
Lemma addSite_cases (newId : string) (st : AppState) :
  (canSave st = false /\ addSite newId st = st) \/
  (canSave st = true /\
   exists v, validateHttpUrl (normalizeUrl (draftUrl st)) = Some v /\
     addSite newId st =
     closeAdd (set_sites (sites st ++
                 [ {| id := newId; url := v; name := trim (draftName st);
                      color := draftColor st; iconUrl := getFaviconUrl v;
                      displayMode := draftDisplayMode st |} ]) st)).
Proof.
  destruct (canSave st) eqn:Ec.
  - right. split; [reflexivity|]. apply canSave_validate in Ec.
    destruct Ec as (Hn & Hu & v & Hv). exists v. split; [exact Hv|].
    unfold addSite. apply truthy_true in Hn, Hu. rewrite Hn, Hu, Hv. reflexivity.
  - left. split; [reflexivity|]. unfold addSite.
    destruct (truthy (normalizeUrl (draftUrl st))) eqn:Eu; cbn; [|reflexivity].
    destruct (truthy (trim (draftName st))) eqn:En; cbn; [|reflexivity].
    destruct (validateHttpUrl (normalizeUrl (draftUrl st))) as [v|] eqn:Ev; [|reflexivity].
    exfalso. assert (canSave st = true); [|congruence].
    apply canSave_validate. rewrite <- !truthy_true. eauto.
Qed.

(** X6. The submit button and its handler agree: when [canSave] is false
    [addSite] changes nothing at all, and when [canSave] is true [addSite]
    appends one shortcut and closes the form. *)
Theorem canSave_addSite (newId : string) (st : AppState) :
  (canSave st = false -> addSite newId st = st) /\
  (canSave st = true ->
   exists s, sites (addSite newId st) = sites st ++ [s] /\
             isAddOpen (addSite newId st) = false).
Proof.
  destruct (addSite_cases newId st) as [[Ec E]|[Ec (v & Hv & E)]]; rewrite Ec, E.
  - split; [reflexivity|discriminate].
  - split; [discriminate|]. intros _. eexists. split; reflexivity.
Qed.

(** X7. What [addSite] does when it acts: the new shortcut goes last and the
    shortcuts already there are untouched; it has the id given, the trimmed
    and non-empty name, the canonical form of an http/https URL that the
    platform parsed, the favicon URL of that URL, and the draft color and
    display mode; the form is closed and its drafts are reset; the settings,
    the icon failure flags and the armed id are untouched. *)
Theorem addSite_appends (newId : string) (st : AppState) :
  addSite newId st <> st ->
  exists s, sites (addSite newId st) = sites st ++ [s] /\
    id s = newId /\
    name s = trim (draftName st) /\ name s <> "" /\
    (exists u, URL_new (normalizeUrl (draftUrl st)) = Normal u /\ is_http u = true /\
               url s = URL.toString u) /\
    iconUrl s = getFaviconUrl (url s) /\
    color s = draftColor st /\ displayMode s = draftDisplayMode st /\
    isAddOpen (addSite newId st) = false /\
    draftUrl (addSite newId st) = "" /\ draftName (addSite newId st) = "" /\
    draftColor (addSite newId st) = "#4A7DFF" /\ draftDisplayMode (addSite newId st) = auto /\
    settings (addSite newId st) = settings st /\
    iconErrorById (addSite newId st) = iconErrorById st /\
    deleteArmedId (addSite newId st) = deleteArmedId st.
Proof.
  intros Hchg. destruct (addSite_cases newId st) as [[_ E]|[Ec (v & Hv & E)]]; [contradiction|].
  apply canSave_validate in Ec. destruct Ec as (Hn & _ & _).
  eexists. rewrite E. cbn. split; [reflexivity|].
  repeat (split; [first [reflexivity | exact Hn | apply validateHttpUrl_Some, Hv]|]).
  reflexivity.
Qed.

(** X8. A second click on the submit button adds nothing: whether the first
    one acted or not, [addSite] after [addSite] leaves the state of the first
    (the drafts are empty after a success, and a failure changed nothing). *)
Theorem addSite_twice (id1 id2 : string) (st : AppState) :
  addSite id2 (addSite id1 st) = addSite id1 st.
Proof.
  destruct (addSite_cases id1 st) as [[Ec E]|[Ec (v & Hv & E)]].
  - rewrite E. destruct (addSite_cases id2 st) as [[_ E2]|[Ec2 _]]; [exact E2|congruence].
  - rewrite E. reflexivity.
Qed.

(** X9. Adding a shortcut under an id no shortcut has and removing that id
    gives the collection back. *)
Theorem addSite_removeSite (newId : string) (st : AppState) :
  (forall s, s ∈ sites st -> id s <> newId) ->
  sites (removeSite newId (addSite newId st)) = sites st.
Proof.
  intros Hfresh.
  assert (Hkeep : List.filter (fun s => negb (String.eqb (id s) newId)) (sites st) = sites st).
  { rewrite filter_eqb_decide. apply filter_keeps_all. exact Hfresh. }
  destruct (addSite_cases newId st) as [[_ E]|[_ (v & _ & E)]]; rewrite E.
  - exact Hkeep.
  - change (sites (removeSite newId (closeAdd (set_sites ?l st))))
      with (List.filter (fun s => negb (String.eqb (id s) newId)) l).
    rewrite List.filter_app, Hkeep. cbn [List.filter id].
    rewrite String.eqb_refl. apply app_nil_r.
Qed.

(** *** The icon failure flags, again *)

(** X10. Reporting the failure of an icon twice is reporting it once, and
    the order of two reports does not matter. *)
Theorem markIconError_idempotent_commutes (i j : string) (st : AppState) :
  markIconError i (markIconError i st) = markIconError i st /\
  markIconError i (markIconError j st) = markIconError j (markIconError i st).
Proof.
  assert (Hset : forall k e, flagged ({[ k ]} ∪ e) k = true).
  { intros k e. unfold flagged. apply orb_true_iff. left.
    apply bool_decide_eq_true, elem_of_union_l, elem_of_singleton. reflexivity. }
  assert (Hother : forall k l e, k <> l -> flagged ({[ k ]} ∪ e) l = flagged e l).
  { intros k l e Hne. unfold flagged. f_equal. apply bool_decide_ext.
    rewrite elem_of_union, elem_of_singleton.
    split; [intros [Eq|Hin]; [congruence|exact Hin]|intros Hin; right; exact Hin]. }
  split.
  - unfold markIconError.
    destruct (flagged (iconErrorById st) i) eqn:E; cbn; rewrite ?E, ?Hset; reflexivity.
  - destruct (decide (i = j)) as [->|Hne]; [reflexivity|].
    unfold markIconError.
    destruct (flagged (iconErrorById st) j) eqn:Ej;
      destruct (flagged (iconErrorById st) i) eqn:Ei; cbn;
      rewrite ?Ej, ?Ei, ?Hother, ?Ej, ?Ei by congruence; try reflexivity.
    unfold set_iconErrorById. cbn. f_equal.
    rewrite !(assoc_L (∪)). f_equal. apply (comm_L (∪)).
Qed.

(** *** The two stored records *)

Lemma keys_differ : STORAGE_KEY <> SETTINGS_KEY.
Proof. discriminate. Qed.

Lemma setItem_other (st st' : Storage) (k k' v : string) :
  setItem st k v = Normal st' -> k <> k' -> getItem st' k' = getItem st k'.
Proof.
  unfold setItem, getItem. destruct (available st) eqn:Ea; cbn; [|discriminate].
  destruct (within_quota st _); cbn; [|discriminate].
  intros [= <-] Hne. cbn. rewrite lookup_insert_ne by exact Hne. reflexivity.
Qed.

Lemma loadSettings_getItem (st st' : Storage) :
  getItem st' SETTINGS_KEY = getItem st SETTINGS_KEY ->
  loadSettingsFromStorage st' = loadSettingsFromStorage st.
Proof. intros E. unfold loadSettingsFromStorage. rewrite E. reflexivity. Qed.

Lemma loadSites_getItem (st st' : Storage) :
  getItem st' STORAGE_KEY = getItem st STORAGE_KEY ->
  loadSitesFromStorage st' = loadSitesFromStorage st.
Proof. intros E. unfold loadSitesFromStorage. rewrite E. reflexivity. Qed.

(** X11. The two records are stored independently: saving the shortcuts
    does not change what the settings load as, saving the settings does not
    change what the shortcuts load as, and a save that the store refuses
    leaves the store as it was. *)
Theorem saves_independent (st : Storage) (sites : list Site) (p : HomepageSettings) :
  loadSettingsFromStorage (saveSites st sites) = loadSettingsFromStorage st /\
  loadSitesFromStorage (saveSettings st p) = loadSitesFromStorage st /\
  (setItem st STORAGE_KEY (JSON_stringify (Sites_toJS sites)) = Throw ->
   saveSites st sites = st) /\
  (setItem st SETTINGS_KEY (JSON_stringify (Settings_toJS p)) = Throw ->
   saveSettings st p = st).
Proof.
  split; [|split; [|split]].
  - apply loadSettings_getItem. unfold saveSites.
    destruct (setItem st STORAGE_KEY _) as [st'|] eqn:E; cbn; [|reflexivity].
    apply (setItem_other _ _ _ _ _ E keys_differ).
  - apply loadSites_getItem. unfold saveSettings.
    destruct (setItem st SETTINGS_KEY _) as [st'|] eqn:E; cbn; [|reflexivity].
    apply (setItem_other _ _ _ _ _ E). intros E'. symmetry in E'. exact (keys_differ E').
  - unfold saveSites. intros ->. reflexivity.
  - unfold saveSettings. intros ->. reflexivity.
Qed.

(** *** The settings panel *)

(** X12. The apply button and its handler agree: when [canApplyBg] is
    false [applyBackgroundUrl] changes nothing, and when it is true the
    background becomes what [normalizeHttpUrlOrNull] makes of the draft
    (absent for a blank draft) and nothing else changes. *)
Theorem canApplyBg_applyBackgroundUrl (st : AppState) :
  (canApplyBg st = false -> applyBackgroundUrl st = st) /\
  (canApplyBg st = true ->
   applyBackgroundUrl st
   = set_settings (set_backgroundImage (normalizeHttpUrlOrNull (draftBgUrl st)) (settings st)) st).
Proof.
  unfold canApplyBg, applyBackgroundUrl.
  destruct (truthy (trim (draftBgUrl st))) eqn:Et; cbn.
  - rewrite (normalizeHttpUrlOrNull_validate _ Et).
    destruct (validateHttpUrl (normalizeUrl (draftBgUrl st))) as [u|] eqn:Ev; cbn.
    + rewrite (validateHttpUrl_truthy _ _ Ev). cbn.
      split; [discriminate|reflexivity].
    + split; [reflexivity|discriminate].
  - split; [discriminate|]. intros _.
    unfold normalizeHttpUrlOrNull, normalizeUrl. rewrite Et. reflexivity.
Qed.

(** *** Deleting a shortcut *)

Lemma run_app (evs1 evs2 : list Event) (st : AppState) :
  fst (run (evs1 ++ evs2) st) = fst (run evs2 (fst (run evs1 st))).
Proof.
  revert st. induction evs1 as [|ev evs1 IH]; intros st; [reflexivity|].
  cbn [app]. rewrite !run_cons. cbn [fst]. apply IH.
Qed.

(** The events of a press leave the collection and the settings alone. *)
Lemma press_frame (ev : Event) (st : AppState) :
  pressEvent ev ->
  sites (fst (step ev st)) = sites st /\ settings (fst (step ev st)) = settings st.
Proof.
  unfold pressEvent. destruct ev; try contradiction; cbn [step fst].
  - destruct target; try contradiction; intros _;
      cbn -[clearLongPressTimer]; unfold armDeleteWithLongPress, setTimeout;
      cbn -[clearLongPressTimer];
      destruct (clearLongPressTimer_frame (set_longPressTriggeredRef false st))
        as (-> & -> & _); split; reflexivity.
  - intros _. unfold cancelLongPress.
    destruct (clearLongPressTimer_frame st) as (-> & -> & _); split; reflexivity.
  - intros _. unfold cancelLongPress.
    destruct (clearLongPressTimer_frame st) as (-> & -> & _); split; reflexivity.
  - intros _. unfold tileClick. destruct (longPressTriggeredRef st); [split; reflexivity|].
    destruct (truthy_opt (deleteArmedId st)); split; reflexivity.
  - intros _. split; reflexivity.
  - intros _. destruct (pendingTimeouts st !! h) as [[due i]|]; [|split; reflexivity].
    destruct (due <=? now st)%nat; split; reflexivity.
Qed.

Lemma run_press_frame (evs : list Event) (st : AppState) :
  Forall pressEvent evs ->
  sites (fst (run evs st)) = sites st /\ settings (fst (run evs st)) = settings st.
Proof.
  intros Hall. revert st. induction Hall as [|ev evs Hev _ IH]; intros st; [split; reflexivity|].
  rewrite run_cons. cbn [fst]. destruct (IH (fst (step ev st))) as [-> ->].
  apply press_frame, Hev.
Qed.

Lemma step_pointerDown_button (site : Site) (st : AppState) :
  fst (step (PointerDown (DeleteBtn site)) st) = pointerDown (Tile site) st.
Proof. reflexivity. Qed.

Lemma step_pointerUp (site : Site) (st : AppState) :
  fst (step (TilePointerUp site) st) = clearLongPressTimer st.
Proof. reflexivity. Qed.

Lemma step_deleteClick (site : Site) (st : AppState) :
  fst (step (DeleteClick site) st) = removeSite (id site) st.
Proof. reflexivity. Qed.

Lemma removeSite_fields (i : string) (st : AppState) :
  sites (removeSite i st) = List.filter (fun s => negb (String.eqb (id s) i)) (sites st) /\
  deleteArmedId (removeSite i st) = None /\
  pendingTimeouts (removeSite i st) = pendingTimeouts st /\
  settings (removeSite i st) = settings st.
Proof. repeat split; reflexivity. Qed.

(** After the button of an armed tile was tapped and clicked. *)
Lemma delete_tap (armed : AppState) (site : Site) :
  singleTimer armed ->
  let final := fst (run [PointerDown (DeleteBtn site); TilePointerUp site;
                         DeleteClick site] armed) in
  sites final = filter (fun s => id s <> id site) (sites armed) /\
  deleteArmedId final = None /\
  pendingTimeouts final = ∅ /\
  settings final = settings armed.
Proof.
  intros Hwfa. cbv zeta.
  rewrite !run_cons. cbn [run fst].
  rewrite step_pointerDown_button.
  destruct (pointerDown_tile site armed Hwfa) as (_ & _ & _ & _ & Hs1 & Hse1 & _ & _).
  pose proof (singleTimer_step (PointerDown (Tile site)) armed Hwfa) as Hwf1.
  change (fst (step (PointerDown (Tile site)) armed)) with (pointerDown (Tile site) armed) in Hwf1.
  revert Hs1 Hse1 Hwf1. generalize (pointerDown (Tile site) armed). intros st1 Hs1 Hse1 Hwf1.
  rewrite step_pointerUp.
  destruct (clearLongPressTimer_frame st1) as (Hs2 & Hse2 & _).
  pose proof (clearLongPressTimer_pending st1 Hwf1) as Hp2.
  revert Hs2 Hse2 Hp2. generalize (clearLongPressTimer st1). intros st2 Hs2 Hse2 Hp2.
  rewrite step_deleteClick.
  destruct (removeSite_fields (id site) st2) as (-> & -> & -> & ->).
  split; [rewrite Hs2, Hs1; apply filter_eqb_decide|].
  split; [reflexivity|].
  split; [exact Hp2|].
  rewrite Hse2, Hse1. reflexivity.
Qed.

(** X13. The whole deletion: a press on a tile held for at least 480 ms,
    its release and click, then a tap on the delete button that the armed
    tile shows.  Afterwards the shortcuts with the id of the tile are gone and
    the others are there in their order, no shortcut is armed, no timeout is
    pending and the settings are what they were. *)
Theorem delete_gesture (st : AppState) (site : Site) (dt : nat) :
  singleTimer st -> (480 <= dt)%nat ->
  let armed := fst (run [PointerDown (Tile site); Elapse dt;
                         TimeoutFires (nextTimeoutHandle st);
                         TilePointerUp site; TileClick site] st) in
  let final := fst (run [PointerDown (DeleteBtn site); TilePointerUp site;
                         DeleteClick site] armed) in
  deleteButton (renderTile armed site) = true /\
  sites final = filter (fun s => id s <> id site) (sites st) /\
  deleteArmedId final = None /\
  pendingTimeouts final = ∅ /\
  settings final = settings st.
Proof.
  intros Hwf Hdt. cbv zeta.
  destruct (long_press st site dt (TilePointerUp site) Hwf Hdt (or_introl eq_refl))
    as (Hp & Hd & _ & _).
  cbv zeta in Hp, Hd.
  destruct (run_press_frame [PointerDown (Tile site); Elapse dt;
                             TimeoutFires (nextTimeoutHandle st);
                             TilePointerUp site; TileClick site] st) as [Hs Hse];
    [repeat constructor|].
  revert Hp Hd Hs Hse.
  generalize (fst (run [PointerDown (Tile site); Elapse dt;
                        TimeoutFires (nextTimeoutHandle st);
                        TilePointerUp site; TileClick site] st)).
  intros armed Hp Hd Hs Hse.
  assert (Hwfa : singleTimer armed).
  { intros h d. rewrite Hp, lookup_empty. discriminate. }
  split.
  { change (deleteButton (renderTile armed site)) with (isArmed armed site).
    unfold isArmed. rewrite Hd. apply bool_decide_eq_true. reflexivity. }
  destruct (delete_tap armed site Hwfa) as (E1 & E2 & E3 & E4).
  rewrite E1, E2, E3, E4, Hs, Hse. repeat split; reflexivity.
Qed.

End More.

(** ** Labels and initials *)

Lemma chars_append (a b : string) : chars (a +:+ b) = chars a ++ chars b.
Proof.
  unfold chars. induction a as [|c a IH]; [reflexivity|].
  change (String c a +:+ b) with (String c (a +:+ b)).
  cbn [list_ascii_of_string app]. f_equal. exact IH.
Qed.

Lemma of_chars_app (a b : list ascii) : of_chars (a ++ b) = of_chars a +:+ of_chars b.
Proof.
  unfold of_chars. induction a as [|c a IH]; [reflexivity|].
  cbn [string_of_list_ascii app].
  change (String c ?x +:+ ?y) with (String c (x +:+ y)). f_equal. exact IH.
Qed.

Lemma of_chars_nil (l : list ascii) : of_chars l = "" -> l = [].
Proof. destruct l; [reflexivity|discriminate]. Qed.

Lemma join_all_of_chars (gs : list (list ascii)) :
  join_all (map of_chars gs) = of_chars (List.concat gs).
Proof.
  induction gs as [|g gs IH]; [reflexivity|].
  cbn [map join_all fold_right List.concat]. rewrite of_chars_app. f_equal. exact IH.
Qed.

Lemma codePoints_cons (c : ascii) (r : list ascii) :
  codePoints (c :: r)
  = match r with
    | c' :: _ =>
        if is_continuation c' then
          match codePoints r with
          | g :: gs' => (c :: g) :: gs'
          | [] => [[c]]
          end
        else [c] :: codePoints r
    | [] => [[c]]
    end.
Proof. reflexivity. Qed.

Lemma codePoints_nonempty (c : ascii) (r : list ascii) : codePoints (c :: r) <> [].
Proof.
  rewrite codePoints_cons. destruct r as [|c' r']; [discriminate|].
  destruct (is_continuation c'); [|discriminate].
  destruct (codePoints (c' :: r')); discriminate.
Qed.

Lemma codePoints_concat (l : list ascii) : List.concat (codePoints l) = l.
Proof.
  induction l as [|c r IH]; [reflexivity|].
  rewrite codePoints_cons. destruct r as [|c' r']; [reflexivity|].
  destruct (is_continuation c').
  - destruct (codePoints (c' :: r')) as [|g gs] eqn:E.
    + destruct (codePoints_nonempty c' r' E).
    + cbn [List.concat] in *. cbn [app]. f_equal. exact IH.
  - cbn [List.concat app]. f_equal. exact IH.
Qed.

Lemma codePoints_shape (l : list ascii) :
  Forall tailOk (codePoints l) /\ Forall headOk (tl (codePoints l)).
Proof.
  induction l as [|c r [IHt IHh]]; [split; constructor|].
  rewrite codePoints_cons. destruct r as [|c' r'].
  - split; [repeat constructor|constructor].
  - destruct (is_continuation c') eqn:Ec.
    + destruct (codePoints (c' :: r')) as [|g gs] eqn:E;
        [destruct (codePoints_nonempty c' r' E)|].
      assert (Hg : exists t, g = c' :: t).
      { pose proof (codePoints_concat (c' :: r')) as Hc. rewrite E in Hc.
        apply Forall_cons_1 in IHt. destruct IHt as [Hg _].
        destruct g as [|x t]; [destruct Hg|]. cbn in Hc. injection Hc as -> _. eauto. }
      destruct Hg as [t ->]. apply Forall_cons_1 in IHt. destruct IHt as [Hg Hgs].
      split; [|exact IHh]. constructor; [|exact Hgs].
      cbn in Hg |- *. rewrite Ec, Hg. reflexivity.
    + split; [constructor; [reflexivity|exact IHt]|].
      cbn [tl]. destruct (codePoints (c' :: r')) as [|g gs] eqn:E;
        [destruct (codePoints_nonempty c' r' E)|].
      constructor; [|exact IHh].
      pose proof (codePoints_concat (c' :: r')) as Hc. rewrite E in Hc.
      apply Forall_cons_1 in IHt. destruct IHt as [Hg _].
      destruct g as [|x t]; [destruct Hg|]. cbn in Hc. injection Hc as -> _. exact Ec.
Qed.

Lemma codePoints_app (a b : list ascii) :
  b = [] \/ headOk b -> codePoints (a ++ b) = codePoints a ++ codePoints b.
Proof.
  intros Hb. induction a as [|c a IH]; [reflexivity|].
  cbn [app]. rewrite !codePoints_cons.
  destruct a as [|c' a'].
  - cbn [app]. destruct b as [|x b']; [reflexivity|].
    destruct Hb as [Hb|Hb]; [discriminate|]. cbn in Hb. rewrite Hb. reflexivity.
  - cbn [app] in *. destruct (is_continuation c'); rewrite IH; [|reflexivity].
    destruct (codePoints (c' :: a')) as [|g gs] eqn:E;
      [destruct (codePoints_nonempty c' a' E)|reflexivity].
Qed.

Lemma codePoints_group (g : list ascii) : tailOk g -> codePoints g = [g].
Proof.
  destruct g as [|c t]; [intros []|]. cbn [tailOk]. revert c.
  induction t as [|c' t IH]; intros c Ht; [reflexivity|].
  cbn [forallb] in Ht. apply andb_true_iff in Ht. destruct Ht as [Hc Ht].
  rewrite codePoints_cons, Hc, (IH c' Ht). reflexivity.
Qed.

Lemma codePoints_regroup (gs : list (list ascii)) :
  Forall tailOk gs -> Forall headOk (tl gs) -> codePoints (List.concat gs) = gs.
Proof.
  induction gs as [|g gs IH]; intros Ht Hh; [reflexivity|].
  apply Forall_cons_1 in Ht. destruct Ht as [Hg Ht]. cbn [tl] in Hh. cbn [List.concat].
  rewrite codePoints_app.
  - rewrite (codePoints_group g Hg), IH; [reflexivity|exact Ht|].
    destruct gs; [constructor|]. apply Forall_cons_1 in Hh. apply Hh.
  - destruct gs as [|g' gs']; [left; reflexivity|right].
    apply Forall_cons_1 in Hh. destruct Hh as [Hg' _].
    destruct g' as [|x t]; [destruct Hg'|exact Hg'].
Qed.

Lemma codePoints_take (n : nat) (l : list ascii) :
  codePoints (List.concat (take n (codePoints l))) = take n (codePoints l).
Proof.
  destruct (codePoints_shape l) as [Ht Hh]. apply codePoints_regroup.
  - apply Forall_take, Ht.
  - destruct n as [|n]; [constructor|].
    destruct (codePoints l) as [|g gs]; [constructor|].
    cbn [take tl] in *. apply Forall_take, Hh.
Qed.

Lemma Array_from_join (s : string) : join_all (Array_from s) = s.
Proof.
  unfold Array_from. rewrite join_all_of_chars, codePoints_concat.
  apply string_of_list_ascii_of_string.
Qed.

Lemma Array_from_nonempty (s x : string) : x ∈ Array_from s -> x <> "".
Proof.
  unfold Array_from. intros Hx. apply list_elem_of_In, in_map_iff in Hx.
  destruct Hx as (g & <- & Hg). apply list_elem_of_In in Hg.
  destruct (codePoints_shape (chars s)) as [Ht _].
  rewrite Forall_forall in Ht. specialize (Ht g Hg).
  destruct g; [destruct Ht|discriminate].
Qed.

Lemma truncateLabel_long (text : string) (maxChars : nat) :
  maxChars < List.length (Array_from (trim text)) ->
  exists kept rest,
    trim text = kept +:+ rest /\ rest <> "" /\
    Array_from kept = take maxChars (Array_from (trim text)) /\
    join_all (take maxChars (Array_from (trim text))) +:+ "..." = kept +:+ "...".
Proof.
  intros Hlt. unfold Array_from in *. rewrite length_map in Hlt.
  exists (of_chars (List.concat (take maxChars (codePoints (chars (trim text)))))),
         (of_chars (List.concat (drop maxChars (codePoints (chars (trim text)))))).
  split; [|split; [|split]].
  - rewrite <- of_chars_app, <- concat_app, take_drop.
    rewrite codePoints_concat. symmetry. apply string_of_list_ascii_of_string.
  - intros E. apply of_chars_nil in E.
    destruct (drop maxChars (codePoints (chars (trim text)))) as [|g rest] eqn:Ed.
    + apply (f_equal (@List.length _)) in Ed. rewrite length_drop in Ed. cbn in Ed. lia.
    + assert (Hg : g ∈ codePoints (chars (trim text))).
      { rewrite <- (take_drop maxChars (codePoints (chars (trim text)))).
        apply elem_of_app. right. rewrite Ed. by left. }
      destruct (codePoints_shape (chars (trim text))) as [Ht _].
      rewrite Forall_forall in Ht. specialize (Ht g Hg).
      destruct g; [destruct Ht|discriminate].
  - unfold chars at 1. rewrite list_ascii_of_string_of_list_ascii.
    rewrite codePoints_take. symmetry. apply firstn_map.
  - rewrite firstn_map, join_all_of_chars. reflexivity.
Qed.

Lemma truncateLabel_bound (text : string) (maxChars : nat) :
  List.length (Array_from (truncateLabel text maxChars)) <= maxChars + 3.
Proof.
  unfold truncateLabel.
  destruct (Nat.leb_spec (List.length (Array_from (trim text))) maxChars) as [Hle|Hlt].
  - rewrite Array_from_join. lia.
  - destruct (truncateLabel_long text maxChars Hlt) as (kept & rest & _ & _ & Hk & ->).
    unfold Array_from at 1. rewrite chars_append, codePoints_app by (right; reflexivity).
    rewrite length_map, length_app. fold (chars kept).
    change (List.length (codePoints (chars "..."))) with 3.
    assert (Hlen : List.length (codePoints (chars kept)) <= maxChars).
    { apply (f_equal (@List.length _)) in Hk. unfold Array_from in Hk at 1.
      rewrite length_map, length_take in Hk. lia. }
    lia.
Qed.

(** X14. [truncateLabel] works on whole code points: a text of at most
    [maxChars] code points after trimming comes back trimmed and otherwise
    unchanged; a longer one comes back as its first [maxChars] code points,
    a proper prefix of the trimmed text that splits no code point, followed by
    three dots.  The result never has more than [maxChars + 3] code points. *)
Theorem truncateLabel_spec (text : string) (maxChars : nat) :
  (List.length (Array_from (trim text)) <= maxChars ->
   truncateLabel text maxChars = trim text) /\
  (maxChars < List.length (Array_from (trim text)) ->
   exists kept rest,
     trim text = kept +:+ rest /\ rest <> "" /\
     Array_from kept = take maxChars (Array_from (trim text)) /\
     truncateLabel text maxChars = kept +:+ "...") /\
  List.length (Array_from (truncateLabel text maxChars)) <= maxChars + 3.
Proof.
  split; [|split; [|apply truncateLabel_bound]].
  - intros Hle. unfold truncateLabel.
    destruct (Nat.leb_spec (List.length (Array_from (trim text))) maxChars); [|lia].
    apply Array_from_join.
  - intros Hlt. unfold truncateLabel.
    destruct (Nat.leb_spec (List.length (Array_from (trim text))) maxChars); [lia|].
    apply truncateLabel_long, Hlt.
Qed.

Lemma toUpperCase_nonempty (s : string) : s <> "" -> toUpperCase s <> "".
Proof. destruct s; [congruence|discriminate]. Qed.

Lemma head_Array_from (s : string) :
  s <> "" -> exists c, head (Array_from s) = Some c /\ c <> "".
Proof.
  intros Hs. destruct (Array_from s) as [|c cs] eqn:E.
  - exfalso. apply Hs. rewrite <- (Array_from_join s), E. reflexivity.
  - exists c. split; [reflexivity|]. apply (Array_from_nonempty s). rewrite E. by left.
Qed.

Section Initials.
Context `{Platform}.

Lemma getInitial_nonempty (name url : string) : getInitial name url <> "".
Proof.
  unfold getInitial. destruct (truthy (trim name)) eqn:Et.
  - apply truthy_true in Et. destruct (head_Array_from _ Et) as (c & -> & Hc). exact Hc.
  - destruct (URL_new url) as [u|]; cbn; [|discriminate].
    destruct (head (Array_from (stripWww (URL.hostname u)))) as [c|] eqn:Eh; [|discriminate].
    apply toUpperCase_nonempty. apply (Array_from_nonempty (stripWww (URL.hostname u))).
    destruct (Array_from (stripWww (URL.hostname u))); [discriminate|].
    injection Eh as ->. by left.
Qed.

(** X15. The initial of a tile is never empty.  It is the first code point
    of the trimmed name whenever the name is not blank, whatever the URL; for
    a blank name it is the question mark when the URL does not parse or its
    host, the leading [www.] apart, is empty, and otherwise the first
    character of that host in upper case. *)
Theorem getInitial_spec (name url : string) :
  getInitial name url <> "" /\
  (trim name <> "" -> head (Array_from (trim name)) = Some (getInitial name url)) /\
  (trim name = "" -> URL_new url = Throw -> getInitial name url = "?") /\
  (trim name = "" -> forall u, URL_new url = Normal u ->
     getInitial name url
     = match head (Array_from (stripWww (URL.hostname u))) with
       | Some c => toUpperCase c
       | None => "?"
       end).
Proof.
  split; [apply getInitial_nonempty|]. unfold getInitial. split; [|split].
  - intros Hn. pose proof Hn as Ht. apply truthy_true in Ht. rewrite Ht.
    destruct (head_Array_from _ Hn) as (c & -> & _). reflexivity.
  - intros -> ->. reflexivity.
  - intros -> u ->. reflexivity.
Qed.

(** X16. What a tile shows: a label of at most seven code points; the
    remote icon, with a URL that is not empty, or else an initial that is not
    empty, never both and never neither; no remote icon when the display mode
    is text or the icon of this id has failed to load; the delete button
    exactly when this id is the armed one. *)
Theorem renderTile_shows (st : AppState) (site : Site) :
  List.length (Array_from (label (renderTile st site))) <= 7 /\
  ((exists u, iconImg (renderTile st site) = Some u /\ u <> "" /\
              iconText (renderTile st site) = None) \/
   (iconImg (renderTile st site) = None /\
    exists t, iconText (renderTile st site) = Some t /\ t <> "")) /\
  (displayMode site = text -> iconImg (renderTile st site) = None) /\
  (flagged (iconErrorById st) (id site) = true -> iconImg (renderTile st site) = None) /\
  (deleteButton (renderTile st site) = true <-> deleteArmedId st = Some (id site)).
Proof.
  split; [apply (truncateLabel_bound (name site) 4)|].
  unfold renderTile; cbn [iconImg iconText deleteButton].
  split; [|split; [|split]].
  - destruct (showIcon st site) eqn:Es.
    + left. unfold showIcon in Es. apply andb_true_iff in Es. destruct Es as [Es _].
      apply andb_true_iff in Es. destruct Es as [_ Es].
      destruct (iconUrl site) as [u|]; [|discriminate].
      exists u. split; [reflexivity|]. split; [apply truthy_true; exact Es|reflexivity].
    + right. split; [reflexivity|]. eexists. split; [reflexivity|apply getInitial_nonempty].
  - intros Ht. unfold showIcon. rewrite (bool_decide_eq_true_2 _ Ht). reflexivity.
  - intros Hf. unfold showIcon. rewrite Hf, andb_false_r. reflexivity.
  - unfold isArmed. apply bool_decide_eq_true.
Qed.

End Initials.

(** ** The CSS value of the background and the favicon URL *)

Lemma cssStringToken_escape (cs : list ascii) :
  forall (acc rest : list ascii),
    forallb (fun c => negb (is_css_newline c)) cs = true ->
    cssStringToken
      (flat_map (fun c => if Ascii.eqb c (ascii_of_nat 34) || Ascii.eqb c (ascii_of_nat 92)
                          then [ascii_of_nat 92; c] else [c]) cs
       ++ Json.dquote :: rest) acc
    = Some (of_chars (rev acc ++ cs), rest).
Proof.
  induction cs as [|c cs IH]; intros acc rest Hnl.
  - cbn [flat_map app cssStringToken]. rewrite Ascii.eqb_refl, app_nil_r. reflexivity.
  - cbn [forallb] in Hnl. apply andb_true_iff in Hnl. destruct Hnl as [Hc Hcs].
    apply negb_true_iff in Hc.
    cbn [flat_map]. rewrite <- app_assoc.
    replace (rev acc ++ c :: cs) with (rev (c :: acc) ++ cs)
      by (cbn [rev]; rewrite <- app_assoc; reflexivity).
    destruct (Ascii.eqb_spec c (ascii_of_nat 34)) as [->|Hq].
    + cbn [orb app]. rewrite <- IH by exact Hcs. reflexivity.
    + destruct (Ascii.eqb_spec c (ascii_of_nat 92)) as [->|Hb].
      * cbn [orb app]. rewrite <- IH by exact Hcs. reflexivity.
      * cbn [orb app cssStringToken]. rewrite Hc.
        destruct (Ascii.eqb_spec c Json.dquote) as [E|_]; [destruct (Hq E)|].
        destruct (Ascii.eqb_spec c Json.backslash) as [E|_]; [destruct (Hb E)|].
        apply IH, Hcs.
Qed.

Lemma uri_unreserved_percent_byte (c : ascii) :
  Forall (fun x => uri_unreserved x = true \/ x = "%"%char) (percent_byte c).
Proof.
  destruct c as [[] [] [] [] [] [] [] []];
    (constructor; [right; reflexivity|]);
    (constructor; [left; vm_compute; reflexivity|]);
    (constructor; [left; vm_compute; reflexivity|constructor]).
Qed.

Lemma encodeURIComponent_alphabet (s : string) :
  Forall (fun x => uri_unreserved x = true \/ x = "%"%char) (chars (encodeURIComponent s)).
Proof.
  unfold encodeURIComponent, chars at 1. rewrite list_ascii_of_string_of_list_ascii.
  induction (chars s) as [|c cs IH]; [constructor|].
  cbn [flat_map]. apply Forall_app. split; [|exact IH].
  destruct (uri_unreserved c) eqn:E; [|apply uri_unreserved_percent_byte].
  constructor; [left; exact E|constructor].
Qed.

Section Values.
Context `{Platform}.

(** X17. [cssUrlValue] is null exactly when [normalizeHttpUrlOrNull] is.
    Otherwise its value is [url(] followed by a double-quoted string and a
    closing parenthesis, and, unless the URL holds a newline, a CSS reader
    takes from that string exactly the canonical URL and stops at the closing
    parenthesis: no double quote or backslash of the URL ends the string
    early or starts an escape. *)
Theorem cssUrlValue_reads_back (url : string) :
  (cssUrlValue url = None <-> normalizeHttpUrlOrNull url = None) /\
  (forall v, cssUrlValue url = Some v ->
     exists safe body,
       normalizeHttpUrlOrNull url = Some safe /\
       chars v = chars "url(" ++ Json.dquote :: body /\
       (forallb (fun c => negb (is_css_newline c)) (chars safe) = true ->
        cssStringToken body [] = Some (safe, [")"%char]))).
Proof.
  unfold cssUrlValue.
  destruct (normalizeHttpUrlOrNull url) as [safe|] eqn:En; cbn [truthy_opt negb].
  - assert (Et : truthy safe = true).
    { unfold normalizeHttpUrlOrNull in En.
      destruct (negb (truthy (normalizeUrl url))); [discriminate|].
      apply (validateHttpUrl_truthy _ _ En). }
    rewrite Et. cbn [negb default]. split; [split; discriminate|].
    intros v [= <-].
    exists safe, (chars (cssEscape safe) ++ Json.dquote :: [")"%char]).
    split; [reflexivity|]. split.
    + change ("url(" +:+ String (ascii_of_nat 34) (cssEscape safe) +:+ String (ascii_of_nat 34) ")")
        with ("url(" +:+ String (ascii_of_nat 34) (cssEscape safe +:+ String (ascii_of_nat 34) ")")).
      rewrite chars_append. f_equal.
      change (chars (String ?c ?x)) with (c :: chars x).
      rewrite chars_append. reflexivity.
    + intros Hnl. unfold cssEscape, chars at 1.
      rewrite list_ascii_of_string_of_list_ascii.
      rewrite (cssStringToken_escape (chars safe) [] [")"%char] Hnl).
      cbn [rev app]. unfold chars, of_chars. rewrite string_of_list_ascii_of_string. reflexivity.
  - cbn. split; [split; reflexivity|discriminate].
Qed.

(** X18. [getFaviconUrl] is null exactly when the URL does not parse.
    Otherwise it is the address of the favicon service with, between
    [domain_url=] and [&sz=128], the origin written in letters, digits, the
    marks [- _ . ! ~ * ' ( )] and percent escapes only: no character of the
    origin can end the parameter or add another one. *)
Theorem getFaviconUrl_shape (url : string) :
  (getFaviconUrl url = None <-> URL_new url = Throw) /\
  (forall f, getFaviconUrl url = Some f ->
     exists u e,
       URL_new url = Normal u /\ e = encodeURIComponent (URL_origin u) /\
       f = "https://www.google.com/s2/favicons?domain_url=" +:+ e +:+ "&sz=128" /\
       Forall (fun c => (uri_unreserved c = true \/ c = "%"%char) /\
                        c <> "&"%char /\ c <> "="%char /\ c <> "#"%char /\ c <> "?"%char)
         (chars e)).
Proof.
  unfold getFaviconUrl. destruct (URL_new url) as [u|]; cbn.
  - split; [split; discriminate|]. intros f [= <-].
    exists u, (encodeURIComponent (URL_origin u)).
    split; [reflexivity|]. split; [reflexivity|]. split; [reflexivity|].
    eapply Forall_impl; [apply encodeURIComponent_alphabet|].
    intros c Hc. split; [exact Hc|].
    repeat split; intros ->; destruct Hc as [Hc|Hc]; discriminate.
  - split; [split; reflexivity|discriminate].
Qed.

End Values.
